(** * md2pdf: the heading/anchor pipeline, page-number CSS and the
    document composer of [src/md2pdf], as a shallow embedding.

    Python [str] values are sequences of Unicode code points: [str] below
    is [list Z].  Python sets of strings ([seen_ids]) are lists used
    through membership only ([set.add] is [cons]). *)

From Stdlib Require Import ZArith List Bool String Ascii Lia.
From Stdlib Require Import Permutation Sorted.
From Stdlib Require Import DecimalNat.
Import ListNotations.

Open Scope Z_scope.

(** ** Strings *)

Definition str := list Z.

(** Code points of an ASCII string literal. *)
Definition zs (s : string) : str :=
  map (fun a => Z.of_nat (nat_of_ascii a)) (list_ascii_of_string s).

Definition str_eqb (a b : str) : bool :=
  if list_eq_dec Z.eq_dec a b then true else false.

(** [x in seen] for a Python set modelled as a list. *)
Definition mem (x : str) (l : list str) : bool := existsb (str_eqb x) l.

Definition is_empty (s : str) : bool :=
  match s with [] => true | _ => false end.

(** [c in s] for a single character. *)
Definition has_char (c : Z) (s : str) : bool := existsb (Z.eqb c) s.

Fixpoint lstrip_by (p : Z -> bool) (s : str) : str :=
  match s with
  | [] => []
  | c :: s' => if p c then lstrip_by p s' else s
  end.

(** [s.strip(chars)]: drop leading and trailing characters satisfying [p]. *)
Definition strip_by (p : Z -> bool) (s : str) : str :=
  rev (lstrip_by p (rev (lstrip_by p s))).

(** [str.isspace] on one code point (CPython's whitespace table). *)
Definition py_isspace (c : Z) : bool :=
  ((9 <=? c) && (c <=? 13)) || ((28 <=? c) && (c <=? 32)) ||
  (c =? 133) || (c =? 160) || (c =? 5760) ||
  ((8192 <=? c) && (c <=? 8202)) || (c =? 8232) || (c =? 8233) ||
  (c =? 8239) || (c =? 8287) || (c =? 12288).

(** [s.strip()] with no argument. *)
Definition py_strip (s : str) : str := strip_by py_isspace s.

Definition is_ascii_letter (c : Z) : bool :=
  ((65 <=? c) && (c <=? 90)) || ((97 <=? c) && (c <=? 122)).

Definition is_ascii_digit (c : Z) : bool := (48 <=? c) && (c <=? 57).

(** [str(n)] for a non-negative Python int. *)
Fixpoint uint_str (d : Decimal.uint) : str :=
  match d with
  | Decimal.Nil => []
  | Decimal.D0 d => 48 :: uint_str d
  | Decimal.D1 d => 49 :: uint_str d
  | Decimal.D2 d => 50 :: uint_str d
  | Decimal.D3 d => 51 :: uint_str d
  | Decimal.D4 d => 52 :: uint_str d
  | Decimal.D5 d => 53 :: uint_str d
  | Decimal.D6 d => 54 :: uint_str d
  | Decimal.D7 d => 55 :: uint_str d
  | Decimal.D8 d => 56 :: uint_str d
  | Decimal.D9 d => 57 :: uint_str d
  end.

Definition py_str_nat (n : nat) : str := uint_str (Nat.to_uint n).

(** ** Anchor ID Generator ([MarkdownConverter.generate_anchor_id]) *)

(** [base_id.replace(" ", "-")] *)
Definition replace_space (s : str) : str :=
  map (fun c => if c =? 32 then 45 else c) s.

(** [re.sub(r'[^a-z0-9-]', '', base_id)] *)
Definition anchor_char (c : Z) : bool :=
  ((97 <=? c) && (c <=? 122)) || is_ascii_digit c || (c =? 45).

Definition sub_disallowed (s : str) : str := filter anchor_char s.

(** [re.sub(r'-+', '-', base_id)]; [in_run] says the previous character
    was a hyphen already written out. *)
Fixpoint sub_hyphen_runs (in_run : bool) (s : str) : str :=
  match s with
  | [] => []
  | c :: s' =>
      if c =? 45 then
        if in_run then sub_hyphen_runs true s' else 45 :: sub_hyphen_runs true s'
      else c :: sub_hyphen_runs false s'
  end.

Definition heading_fallback : str := zs "heading".

(** The base id computed from the already lower-cased text. *)
Definition anchor_base (lowered : str) : str :=
  let b := strip_by (Z.eqb 45)
             (sub_hyphen_runs false (sub_disallowed (replace_space lowered))) in
  if is_empty b then heading_fallback else b.

(** [f"{base_id}-{counter}"] *)
Definition dup_candidate (base_id : str) (counter : nat) : str :=
  base_id ++ 45 :: py_str_nat counter.

(** The [while f"{base_id}-{counter}" in seen_ids: counter += 1] loop.
    It is cut after [fuel] rounds; [generate_anchor_id] gives it
    [len(seen_ids) + 1] rounds, which never run out
    ([bump_counter_fresh]). *)
Fixpoint bump_counter (base_id : str) (seen_ids : list str)
    (fuel counter : nat) : nat :=
  match fuel with
  | O => counter
  | S f =>
      if mem (dup_candidate base_id counter) seen_ids
      then bump_counter base_id seen_ids f (S counter)
      else counter
  end.

Section Generator.

(** Python's [str.lower] (full Unicode case mapping, with its
    context-dependent final-sigma rule): any function on strings. *)
Variable lower : str -> str.

(** Returns the id and the set after [seen_ids.add]. *)
Definition generate_anchor_id (text : str) (seen_ids : list str)
    : str * list str :=
  let base_id := anchor_base (lower text) in
  if negb (mem base_id seen_ids) then (base_id, base_id :: seen_ids)
  else
    let counter := bump_counter base_id seen_ids (S (List.length seen_ids)) 2 in
    let unique_id := dup_candidate base_id counter in
    (unique_id, unique_id :: seen_ids).

End Generator.

(** [str.lower] on ASCII strings; code points outside A-Z unchanged. *)
Definition ascii_lower (s : str) : str :=
  map (fun c => if (65 <=? c) && (c <=? 90) then c + 32 else c) s.

(** ** Heading Extractor ([MarkdownConverter.extract_headers]) *)

(** [\w] on ASCII code points. *)
Definition ascii_word (c : Z) : bool :=
  is_ascii_letter c || is_ascii_digit c || (c =? 95).

(** [[^>]*>]: the characters before the first ['>'] and what follows it
    ([None] when there is no ['>']). *)
Fixpoint split_at_gt (s : str) : str * option str :=
  match s with
  | [] => ([], None)
  | c :: s' =>
      if c =? 62 then ([], Some s')
      else let (a, r) := split_at_gt s' in (c :: a, r)
  end.

(** [h] under [re.IGNORECASE]: 'h' or 'H'. *)
Definition is_h (c : Z) : bool := (c =? 104) || (c =? 72).

Definition is_level_digit (c : Z) : bool := (c =? 49) || (c =? 50).

(** [</\1>] at the start of [s], the back-reference compared ignoring
    case; returns what follows. *)
Definition close_tag_at (d : Z) (s : str) : option str :=
  match s with
  | lt :: sl :: h :: d' :: gt :: rest =>
      if (lt =? 60) && (sl =? 47) && is_h h && (d' =? d) && (gt =? 62)
      then Some rest else None
  | _ => None
  end.

(** [(.*?)</\1>] with [re.DOTALL]: the shortest content followed by the
    closing tag. *)
Fixpoint find_close (d : Z) (s : str) : option (str * str) :=
  match close_tag_at d s with
  | Some rest => Some ([], rest)
  | None =>
      match s with
      | [] => None
      | c :: s' =>
          match find_close d s' with
          | Some (content, rest) => Some (c :: content, rest)
          | None => None
          end
      end
  end.

(** One match of the heading pattern [<(h[12])\b(ATTRS)>(.*?)</\1>],
    where ATTRS is [[^>]] repeated: the level digit (group 1 is 'h' or
    'H' followed by it), group 2 and group 3. *)
Record hmatch := { m_digit : Z; m_attrs : str; m_content : str }.

(** [int(tag[1])] *)
Definition digit_to_level (d : Z) : Z := d - 48.

(** [html.unescape]'s fast path: without ['&'] the string is returned as
    it is; otherwise the character references are replaced ([refs]). *)
Definition html_unescape (refs : str -> str) (s : str) : str :=
  if has_char 38 s then refs s else s.

(** A heading record [{'text', 'level', 'anchor_id'}]. *)
Record heading := { h_text : str; h_level : Z; anchor_id : str }.

Section Extractor.

Variable lower : str -> str.
(** [\w] outside ASCII (Unicode letters, digits, numerics). *)
Variable uni_word : Z -> bool.
(** The character-reference replacement of [html.unescape]. *)
Variable unescape_refs : str -> str.

(** [\w] of a [str] pattern (Unicode-aware). *)
Definition is_word (c : Z) : bool :=
  if c <? 128 then ascii_word c else uni_word c.

(** [\b] after a word character: end of string or a non-word character. *)
Definition boundary_after (rest : str) : bool :=
  match rest with [] => true | c :: _ => negb (is_word c) end.

(** An attempt of the heading pattern at the start of [s]: the match and
    the text after it. *)
Definition match_heading_at (s : str) : option (hmatch * str) :=
  match s with
  | lt :: h :: d :: rest =>
      if (lt =? 60) && is_h h && is_level_digit d && boundary_after rest then
        match split_at_gt rest with
        | (attrs, Some after) =>
            match find_close d after with
            | Some (content, rest') =>
                Some ({| m_digit := d; m_attrs := attrs; m_content := content |}, rest')
            | None => None
            end
        | (_, None) => None
        end
      else None
  | _ => None
  end.

(** [re.finditer]: try every position left to right; after a match the
    search resumes at its end ([skip] characters are passed over). *)
Fixpoint heading_matches_from (s : str) (skip : nat) : list hmatch :=
  match s with
  | [] => []
  | c :: s' =>
      match skip with
      | S k => heading_matches_from s' k
      | O =>
          match match_heading_at s with
          | Some (m, rest) =>
              m :: heading_matches_from s' (List.length s' - List.length rest)%nat
          | None => heading_matches_from s' O
          end
      end
  end.

Definition heading_matches (html_content : str) : list hmatch :=
  heading_matches_from html_content O.

(** [re.sub(r'<[^>]+>', '', content)]. *)
Fixpoint sub_tags (s : str) (skip : nat) : str :=
  match s with
  | [] => []
  | c :: s' =>
      match skip with
      | S k => sub_tags s' k
      | O =>
          if c =? 60 then
            match split_at_gt s' with
            | (inner, Some _) =>
                if is_empty inner then c :: sub_tags s' O
                else sub_tags s' (S (List.length inner))
            | (_, None) => c :: sub_tags s' O
            end
          else c :: sub_tags s' O
      end
  end.

(** [[^"]*"]: the characters before the first double quote. *)
Fixpoint quoted_value (s : str) : option str :=
  match s with
  | [] => None
  | c :: s' => if c =? 34 then Some [] else option_map (cons c) (quoted_value s')
  end.

(** [re.search(id_pattern, attrs)] for [id_pattern] the word boundary,
    [id=], a double quote, the value group and a double quote;
    [prev_word] says whether the
    character before [s] is a word character. *)
Fixpoint search_id (prev_word : bool) (s : str) : option str :=
  match s with
  | [] => None
  | c :: s' =>
      let here :=
        if prev_word then None
        else
          match s with
          | i :: d :: e :: q :: v =>
              if (i =? 105) && (d =? 100) && (e =? 61) && (q =? 34)
              then quoted_value v else None
          | _ => None
          end in
      match here with
      | Some v => Some v
      | None => search_id (is_word c) s'
      end
  end.

Definition id_tail_char (c : Z) : bool := is_word c || (c =? 45).

(** [re.match(r'^[a-zA-Z][\w\-]*$', s)]: without MULTILINE, [$] also
    matches before a final newline. *)
Definition valid_explicit_id (s : str) : bool :=
  match s with
  | [] => false
  | c :: rest =>
      is_ascii_letter c &&
      (forallb id_tail_char rest ||
       match rev rest with
       | nl :: r => (nl =? 10) && forallb id_tail_char r
       | [] => false
       end)
  end.

(** [anchor_id and re.match(r'^[a-zA-Z][\w\-]*$', anchor_id)] *)
Definition accepts_explicit (anchor : str) : bool :=
  negb (is_empty anchor) && valid_explicit_id anchor.

(** [id_match.group(1).strip() if id_match else ''] *)
Definition explicit_anchor (attrs : str) : str :=
  match search_id false attrs with Some v => py_strip v | None => [] end.

(** [html.unescape(re.sub(r'<[^>]+>', '', content).strip())] *)
Definition heading_text (content : str) : str :=
  html_unescape unescape_refs (py_strip (sub_tags content O)).

(** The loop body over the matches, threading [seen_ids]. *)
Fixpoint extract_loop (ms : list hmatch) (seen_ids : list str) : list heading :=
  match ms with
  | [] => []
  | m :: ms' =>
      let level := digit_to_level (m_digit m) in
      let anchor := explicit_anchor (m_attrs m) in
      let text := heading_text (m_content m) in
      if is_empty text then extract_loop ms' seen_ids
      else if accepts_explicit anchor then
        {| h_text := text; h_level := level; anchor_id := anchor |}
          :: extract_loop ms' (anchor :: seen_ids)
      else
        let g := generate_anchor_id lower text seen_ids in
        {| h_text := text; h_level := level; anchor_id := fst g |}
          :: extract_loop ms' (snd g)
  end.

Definition extract_headers (html_content : str) : list heading :=
  extract_loop (heading_matches html_content) [].

End Extractor.

(** ** Style Assembler: [get_page_number_css] ([styles.py]) *)

Definition nl : str := [10].
Definition dq : str := [34].

(** [text.replace(c, r)] for a one-character [c]. *)
Definition replace_char (c : Z) (r : str) (s : str) : str :=
  flat_map (fun x => if x =? c then r else [x]) s.

(** [_escape_css_string]: the three [replace] calls in order. *)
Definition escape_css_string (text : str) : str :=
  replace_char 10 [92; 110] (replace_char 34 [92; 34] (replace_char 92 [92; 92] text)).

Definition css_string_token (text : str) : str := dq ++ escape_css_string text ++ dq.

(** What [escape_css_string] writes for one character. *)
Definition esc1 (c : Z) : str :=
  if c =? 92 then [92; 92] else if c =? 34 then [92; 34] else if c =? 10 then [92; 110] else [c].

Fixpoint prefixb (p s : str) : bool :=
  match p, s with
  | [], _ => true
  | x :: p', y :: s' => (x =? y) && prefixb p' s'
  | _ :: _, [] => false
  end.

(** [s.split(sep, 1)] when [sep in s]; [None] when [sep] does not occur. *)
Fixpoint split_once (sep s : str) : option (str * str) :=
  if prefixb sep s then Some ([], skipn (List.length sep) s)
  else
    match s with
    | [] => None
    | c :: s' =>
        match split_once sep s' with
        | Some (before, after) => Some (c :: before, after)
        | None => None
        end
    end.

Definition page_placeholder : str := zs "{page}".
Definition pages_placeholder : str := zs "{pages}".

(** The [while remaining:] loop building [content_parts].  Every round
    but the last removes a placeholder, so [len(format) + 1] rounds are
    enough. *)
Fixpoint page_parts (fuel : nat) (remaining : str) : list str :=
  match fuel with
  | O => []
  | S f =>
      if is_empty remaining then []
      else
        match split_once page_placeholder remaining with
        | Some (before, after) =>
            (if is_empty before then [] else [css_string_token before])
              ++ zs "counter(page)" :: page_parts f after
        | None =>
            match split_once pages_placeholder remaining with
            | Some (before, after) =>
                (if is_empty before then [] else [css_string_token before])
                  ++ zs "counter(pages)" :: page_parts f after
            | None => [css_string_token remaining]
            end
        end
  end.

(** [sep.join(parts)] *)
Fixpoint join (sep : str) (parts : list str) : str :=
  match parts with
  | [] => []
  | [x] => x
  | x :: parts' => x ++ sep ++ join sep parts'
  end.

(** The configuration fields [get_page_number_css] reads. *)
Record page_config := {
  enable_page_numbers : bool;
  page_number_position : str;
  page_number_format : str
}.

Inductive exn :=
| InvalidMarkdownError (msg : str)
| ConversionError (msg : str)
| ValueError (msg : str)
| FileNotFoundError (msg : str)
| OSError (msg : str).

(** A Python computation that returns a value or raises. *)
Inductive res (A : Type) :=
| Ok (a : A)
| Raise (e : exn).
Arguments Ok {A}.
Arguments Raise {A}.

(** [position_map[config.page_number_position]] *)
Definition margin_box_of (position : str) : option str :=
  if str_eqb position (zs "left") then Some (zs "@bottom-left")
  else if str_eqb position (zs "center") then Some (zs "@bottom-center")
  else if str_eqb position (zs "right") then Some (zs "@bottom-right")
  else None.

(** The returned f-string. *)
Definition page_number_block (margin_box content_value : str) : str :=
  nl ++ zs "    " ++ margin_box ++ zs " {" ++ nl
  ++ zs "        content: " ++ content_value ++ zs ";" ++ nl
  ++ zs "        font-size: 9pt;" ++ nl
  ++ zs "        color: #666;" ++ nl
  ++ zs "        font-family: Arial, sans-serif;" ++ nl
  ++ zs "    }" ++ nl ++ zs "    ".

Definition get_page_number_css (config : page_config) : res str :=
  if negb (enable_page_numbers config) then Ok []
  else
    match margin_box_of (page_number_position config) with
    | None =>
        Raise (ValueError (zs "Invalid page_number_position: "
                 ++ page_number_position config
                 ++ zs ". Must be one of: left, center, right"))
    | Some margin_box =>
        let fmt := page_number_format config in
        Ok (page_number_block margin_box
              (join (zs " ") (page_parts (S (List.length fmt)) fmt)))
    end.

(** ** Reading the page-number content back

    How a CSS parser reads a string token (CSS Syntax Level 3, 3.3
    preprocessing and 4.3.5 "consume a string token" with 4.3.7 "consume an
    escaped code point"); used to state what the string tokens written by
    [get_page_number_css] mean. *)

Definition is_surrogate (c : Z) : bool := (55296 <=? c) && (c <=? 57343).

(** Preprocessing: CR LF, CR and FF become LF; NULL and surrogates
    become U+FFFD. *)
Fixpoint css_preprocess (s : str) : str :=
  match s with
  | [] => []
  | c :: s' =>
      if c =? 13 then
        match s' with
        | d :: s'' => if d =? 10 then 10 :: css_preprocess s'' else 10 :: css_preprocess s'
        | [] => [10]
        end
      else if c =? 12 then 10 :: css_preprocess s'
      else if (c =? 0) || is_surrogate c then 65533 :: css_preprocess s'
      else c :: css_preprocess s'
  end.

Definition is_hex (c : Z) : bool :=
  ((48 <=? c) && (c <=? 57)) || ((65 <=? c) && (c <=? 70)) || ((97 <=? c) && (c <=? 102)).

Definition hex_val (c : Z) : Z :=
  if c <=? 57 then c - 48 else if c <=? 70 then c - 55 else c - 87.

(** Up to [n] more hex digits. *)
Fixpoint hex_digits (n : nat) (acc : Z) (s : str) : Z * str :=
  match n, s with
  | S n', c :: s' => if is_hex c then hex_digits n' (acc * 16 + hex_val c) s' else (acc, s)
  | _, _ => (acc, s)
  end.

Definition css_whitespace (c : Z) : bool := (c =? 10) || (c =? 9) || (c =? 32).

Definition cons_value (c : Z) (r : option (str * str)) : option (str * str) :=
  match r with Some (v, rest) => Some (c :: v, rest) | None => None end.

(** The body of a double-quoted string token, after the opening quote:
    [Some (value, rest)] with [rest] the input after the closing quote,
    [None] for a bad string (a raw newline). *)
Fixpoint css_string_body (fuel : nat) (s : str) : option (str * str) :=
  match fuel with
  | O => None
  | S f =>
      match s with
      | [] => Some ([], [])
      | c :: s' =>
          if c =? 34 then Some ([], s')
          else if c =? 10 then None
          else if c =? 92 then
            match s' with
            | [] => Some ([], [])
            | d :: s'' =>
                if d =? 10 then css_string_body f s''
                else if is_hex d then
                  let (v, rest) := hex_digits 5 (hex_val d) s'' in
                  let rest' := match rest with
                               | w :: r => if css_whitespace w then r else rest
                               | [] => []
                               end in
                  let cp := if (v =? 0) || is_surrogate v || (1114111 <? v) then 65533 else v in
                  cons_value cp (css_string_body f rest')
                else cons_value d (css_string_body f s'')
            end
          else cons_value c (css_string_body f s')
      end
  end.

Definition css_read_string (s : str) : option (str * str) :=
  css_string_body (S (List.length s)) (css_preprocess s).

(** The value CSS reads for one character written through
    [_escape_css_string]: a newline was written as [\n], read as [n]. *)
Definition css_char_value (c : Z) : Z :=
  if c =? 10 then 110 else if (c =? 0) || is_surrogate c then 65533 else c.

(** A piece of a page-number format: literal text or a placeholder. *)
Inductive page_seg :=
| Lit (s : str)
| PageNo
| PagesNo.

Definition seg_token (g : page_seg) : str :=
  match g with
  | Lit s => css_string_token s
  | PageNo => zs "counter(page)"
  | PagesNo => zs "counter(pages)"
  end.

Definition seg_source (g : page_seg) : str :=
  match g with
  | Lit s => s
  | PageNo => page_placeholder
  | PagesNo => pages_placeholder
  end.

(** What [get_page_number_css] leaves in its literal pieces: each is
    non-empty and has no [{page}]; one that still has a [{pages}] comes
    right before a page counter. *)
Fixpoint lits_ok (segs : list page_seg) : Prop :=
  match segs with
  | [] => True
  | Lit s :: rest =>
      s <> [] /\ split_once page_placeholder s = None /\
      (split_once pages_placeholder s <> None -> exists rest', rest = PageNo :: rest') /\
      lits_ok rest
  | _ :: rest => lits_ok rest
  end.

(** ** Configuration ([config.py]) and the [@page] rule ([styles.py]) *)

Module Config.
(** The [Config] dataclass. *)
Record t := {
  page_size : str;
  margin_top : str;
  margin_bottom : str;
  margin_left : str;
  margin_right : str;
  font_family : str;
  font_size : str;
  code_font : str;
  default_output_dir : str;
  preserve_structure : bool;
  enable_page_numbers : bool;
  page_number_position : str;
  page_number_format : str;
  pdf_title : option str;
  pdf_author : option str;
  pdf_subject : option str;
  pdf_keywords : option str
}.
End Config.

(** [os.getenv(key, default)] over the environment as [load_dotenv]
    left it. *)
Definition getenv (env : str -> option str) (key default : str) : str :=
  match env key with Some v => v | None => default end.

(** [os.getenv(key) or None]: an empty value counts as unset. *)
Definition getenv_or_none (env : str -> option str) (key : str) : option str :=
  match env key with
  | Some v => if is_empty v then None else Some v
  | None => None
  end.

Definition valid_positions : list str := [zs "left"; zs "center"; zs "right"].

(** [Config.load]: [load_dotenv] is the outcome of its [load_dotenv()]
    call, either the environment it leaves or the exception it raises (an
    unreadable or non-UTF-8 [.env] file raises [OSError] or
    [UnicodeDecodeError], a [ValueError]); [lower] is Python's
    [str.lower]; the deprecation notice only prints. *)
Definition config_load (lower : str -> str) (load_dotenv : res (str -> option str))
    : res Config.t :=
  match load_dotenv with
  | Raise e => Raise e
  | Ok env =>
    let enable_page_numbers :=
      str_eqb (lower (getenv env (zs "ENABLE_PAGE_NUMBERS") (zs "false"))) (zs "true") in
    let page_number_position := getenv env (zs "PAGE_NUMBER_POSITION") (zs "center") in
    if negb (mem page_number_position valid_positions) then
      Raise (ValueError (zs "PAGE_NUMBER_POSITION must be one of: "
                         ++ join (zs ", ") valid_positions ++ zs ". Got: "
                         ++ page_number_position))
    else
      let format0 := getenv env (zs "PAGE_NUMBER_FORMAT") (zs "Page {page} of {pages}") in
      let page_number_format :=
        if (100 <? List.length format0)%nat then firstn 100 format0 else format0 in
      Ok {| Config.page_size := getenv env (zs "PDF_PAGE_SIZE") (zs "A4");
            Config.margin_top := getenv env (zs "PDF_MARGIN_TOP") (zs "2cm");
            Config.margin_bottom := getenv env (zs "PDF_MARGIN_BOTTOM") (zs "2cm");
            Config.margin_left := getenv env (zs "PDF_MARGIN_LEFT") (zs "2cm");
            Config.margin_right := getenv env (zs "PDF_MARGIN_RIGHT") (zs "2cm");
            Config.font_family := getenv env (zs "PDF_FONT_FAMILY") (zs "Arial, sans-serif");
            Config.font_size := getenv env (zs "PDF_FONT_SIZE") (zs "11pt");
            Config.code_font := getenv env (zs "PDF_CODE_FONT") (zs "Courier, monospace");
            Config.default_output_dir := getenv env (zs "DEFAULT_OUTPUT_DIR") (zs "output");
            Config.preserve_structure :=
              str_eqb (lower (getenv env (zs "PRESERVE_DIRECTORY_STRUCTURE") (zs "true")))
                      (zs "true");
            Config.enable_page_numbers := enable_page_numbers;
            Config.page_number_position := page_number_position;
            Config.page_number_format := page_number_format;
            Config.pdf_title := getenv_or_none env (zs "PDF_TITLE");
            Config.pdf_author := getenv_or_none env (zs "PDF_AUTHOR");
            Config.pdf_subject := getenv_or_none env (zs "PDF_SUBJECT");
            Config.pdf_keywords := getenv_or_none env (zs "PDF_KEYWORDS") |}
  end.

(** [s.endswith(suffix)] *)
Definition endswith (s suffix : str) : bool :=
  (List.length suffix <=? List.length s)%nat
  && str_eqb (skipn (List.length s - List.length suffix) s) suffix.

Definition valid_page_sizes : list str :=
  [zs "A4"; zs "A3"; zs "A5"; zs "Letter"; zs "Legal"].

Definition margin_units : list str := [zs "cm"; zs "mm"; zs "in"; zs "pt"; zs "px"].

(** The margin loop of [Config.validate]. *)
Fixpoint check_margins (margins : list (str * str)) : res unit :=
  match margins with
  | [] => Ok tt
  | (margin_name, margin_value) :: rest =>
      if negb (existsb (endswith margin_value) margin_units) then
        Raise (ValueError (zs "Invalid " ++ margin_name ++ zs ": " ++ margin_value
                           ++ zs ". Must include unit (cm, mm, in, pt, px)"))
      else check_margins rest
  end.

Definition config_margins (c : Config.t) : list (str * str) :=
  [(zs "margin_top", Config.margin_top c); (zs "margin_bottom", Config.margin_bottom c);
   (zs "margin_left", Config.margin_left c); (zs "margin_right", Config.margin_right c)].

(** [Config.validate] *)
Definition config_validate (c : Config.t) : res unit :=
  if negb (mem (Config.page_size c) valid_page_sizes) then
    Raise (ValueError (zs "Invalid page size: " ++ Config.page_size c
                       ++ zs ". Must be one of " ++ join (zs ", ") valid_page_sizes))
  else check_margins (config_margins c).

(** The three fields of a [Config] that [get_page_number_css] reads. *)
Definition page_config_of (c : Config.t) : page_config :=
  {| enable_page_numbers := Config.enable_page_numbers c;
     page_number_position := Config.page_number_position c;
     page_number_format := Config.page_number_format c |}.

(** [get_page_css] *)
Definition get_page_css (config : Config.t) : res str :=
  match get_page_number_css (page_config_of config) with
  | Raise e => Raise e
  | Ok page_number_css =>
      Ok (nl ++ zs "@page {" ++ nl
          ++ zs "    size: " ++ Config.page_size config ++ zs ";" ++ nl
          ++ zs "    margin-top: " ++ Config.margin_top config ++ zs ";" ++ nl
          ++ zs "    margin-bottom: " ++ Config.margin_bottom config ++ zs ";" ++ nl
          ++ zs "    margin-left: " ++ Config.margin_left config ++ zs ";" ++ nl
          ++ zs "    margin-right: " ++ Config.margin_right config ++ zs ";" ++ nl
          ++ page_number_css ++ nl ++ zs "}" ++ nl)
  end.

(** [config.enable_page_numbers = page_numbers] in [cli.main]. *)
Definition set_enable_page_numbers (c : Config.t) (b : bool) : Config.t :=
  {| Config.page_size := Config.page_size c;
     Config.margin_top := Config.margin_top c;
     Config.margin_bottom := Config.margin_bottom c;
     Config.margin_left := Config.margin_left c;
     Config.margin_right := Config.margin_right c;
     Config.font_family := Config.font_family c;
     Config.font_size := Config.font_size c;
     Config.code_font := Config.code_font c;
     Config.default_output_dir := Config.default_output_dir c;
     Config.preserve_structure := Config.preserve_structure c;
     Config.enable_page_numbers := b;
     Config.page_number_position := Config.page_number_position c;
     Config.page_number_format := Config.page_number_format c;
     Config.pdf_title := Config.pdf_title c;
     Config.pdf_author := Config.pdf_author c;
     Config.pdf_subject := Config.pdf_subject c;
     Config.pdf_keywords := Config.pdf_keywords c |}.

(** The configuration step of [cli.main]: [Config.load()] and
    [config.validate()] (a [ValueError] there exits with status 2), then
    the [--page-numbers/--no-page-numbers] override. *)
Definition cli_config (lower : str -> str) (load_dotenv : res (str -> option str))
    (page_numbers : option bool) : res Config.t :=
  match config_load lower load_dotenv with
  | Raise e => Raise e
  | Ok config =>
      match config_validate config with
      | Raise e => Raise e
      | Ok _ =>
          Ok (match page_numbers with
              | Some b => set_enable_page_numbers config b
              | None => config
              end)
      end
  end.

(** ** HTML pieces built by [MarkdownConverter] *)

(** [html.escape(s)] (quote=True): the replacements in CPython's order. *)
Definition html_escape (s : str) : str :=
  replace_char 39 (zs "&#x27;")
    (replace_char 34 (zs "&quot;")
      (replace_char 62 (zs "&gt;")
        (replace_char 60 (zs "&lt;")
          (replace_char 38 (zs "&amp;") s)))).

(** What [html_escape] writes for one character. *)
Definition html_esc1 (c : Z) : str :=
  if c =? 38 then zs "&amp;" else if c =? 60 then zs "&lt;"
  else if c =? 62 then zs "&gt;" else if c =? 34 then zs "&quot;"
  else if c =? 39 then zs "&#x27;" else [c].

(** How an HTML parser reads the five character references that
    [html_escape] writes back into characters; any other text is read
    as it is. *)
Definition escape_refs : list (str * Z) :=
  [(zs "&amp;", 38); (zs "&lt;", 60); (zs "&gt;", 62); (zs "&quot;", 34); (zs "&#x27;", 39)].

Fixpoint read_escape_refs (fuel : nat) (s : str) : str :=
  match fuel with
  | O => s
  | S fuel' =>
      match s with
      | [] => []
      | c :: s' =>
          match find (fun e => prefixb (fst e) s) escape_refs with
          | Some (r, v) => v :: read_escape_refs fuel' (skipn (List.length r) s)
          | None => c :: read_escape_refs fuel' s'
          end
      end
  end.

Definition read_html_text (s : str) : str := read_escape_refs (List.length s) s.

Definition line (s : str) : str := s ++ nl.

(** [str(n)] for the (non-negative) heading level. *)
Definition py_str_level (z : Z) : str := py_str_nat (Z.to_nat z).

Definition toc_entry (header : heading) : str :=
  line (zs "        <li class=" ++ dq ++ zs "toc-h" ++ py_str_level (h_level header)
        ++ dq ++ zs ">")
  ++ line (zs "            <a href=" ++ dq ++ zs "#" ++ anchor_id header ++ dq ++ zs ">"
           ++ html_escape (h_text header) ++ zs "</a>")
  ++ line (zs "        </li>").

Definition generate_toc_html (headers : list heading) : str :=
  match headers with
  | [] => []
  | _ =>
      line (zs "<div class=" ++ dq ++ zs "toc" ++ dq ++ zs ">")
      ++ line (zs "    <h1>Table of Contents</h1>")
      ++ line (zs "    <ul>")
      ++ flat_map toc_entry headers
      ++ line (zs "    </ul>")
      ++ line (zs "</div>")
  end.

(** The caller's [metadata] dict; [None] also stands for an empty
    (falsy) dict, which takes the same branch. *)
Record metadata := {
  md_title : option str;
  md_author : option str;
  md_subject : option str;
  md_keywords : option str
}.

(** The [pdf_metadata] dict: every value a [str]. *)
Record pdf_meta := {
  pm_title : str;
  pm_author : str;
  pm_subject : str;
  pm_keywords : str
}.

(** [x or default] for an [Optional[str]]. *)
Definition or_default (x : option str) (default : str) : str :=
  match x with
  | Some s => if is_empty s then default else s
  | None => default
  end.

Definition pdf_metadata_of (metadata : option metadata) (default_title : str) : pdf_meta :=
  match metadata with
  | Some m =>
      {| pm_title := or_default (md_title m) default_title;
         pm_author := or_default (md_author m) [];
         pm_subject := or_default (md_subject m) [];
         pm_keywords := or_default (md_keywords m) [] |}
  | None =>
      {| pm_title := default_title; pm_author := []; pm_subject := []; pm_keywords := [] |}
  end.

(** [s.split(c)] for a one-character separator. *)
Fixpoint split_on (c : Z) (s : str) : list str :=
  match s with
  | [] => [[]]
  | x :: s' =>
      let rest := split_on c s' in
      if x =? c then [] :: rest
      else match rest with
           | p :: ps => (x :: p) :: ps
           | [] => [[x]]
           end
  end.

(** The fields set on [document.metadata]; [None]: left untouched. *)
Record doc_meta := {
  dm_title : str;
  dm_authors : option (list str);
  dm_description : option str;
  dm_keywords : option (list str)
}.

Definition doc_meta_of (p : pdf_meta) : doc_meta :=
  {| dm_title := pm_title p;
     dm_authors := if is_empty (pm_author p) then None else Some [pm_author p];
     dm_description := if is_empty (pm_subject p) then None else Some (pm_subject p);
     dm_keywords :=
       if is_empty (pm_keywords p) then None
       else Some (map py_strip (split_on 44 (pm_keywords p))) |}.

Definition generate_title_page_html (date_str : str) (m : pdf_meta) : str :=
  let title := or_default (Some (pm_title m)) (zs "Untitled") in
  let author := pm_author m in
  line (zs "<div class=" ++ dq ++ zs "title-page" ++ dq ++ zs ">")
  ++ line (zs "    <h1>" ++ html_escape title ++ zs "</h1>")
  ++ (if is_empty author then []
      else line (zs "    <p class=" ++ dq ++ zs "author" ++ dq ++ zs ">"
                 ++ html_escape author ++ zs "</p>"))
  ++ line (zs "    <p class=" ++ dq ++ zs "date" ++ dq ++ zs ">"
           ++ html_escape date_str ++ zs "</p>")
  ++ line (zs "</div>").

(** The [html_doc] f-string. *)
Definition html_document (title css body : str) : str :=
  line (zs "<!DOCTYPE html>") ++ line (zs "<html>") ++ line (zs "<head>")
  ++ line (zs "    <meta charset=" ++ dq ++ zs "utf-8" ++ dq ++ zs ">")
  ++ line (zs "    <title>" ++ html_escape title ++ zs "</title>")
  ++ line (zs "    <style>") ++ line (zs "        " ++ css) ++ line (zs "    </style>")
  ++ line (zs "</head>") ++ line (zs "<body>") ++ line (zs "    " ++ body)
  ++ line (zs "</body>") ++ line (zs "</html>").

(** The separator [convert_merge] joins the fragments with. *)
Definition page_break : str :=
  zs "<div style=" ++ dq ++ zs "page-break-before: always;" ++ dq ++ zs "></div>".

(** ** Collaborators: pathlib, the file system, Python-Markdown, WeasyPrint *)

Class platform := {
  path : Type;
  FS : Type;
  Doc : Type;
  parent : path -> path;
  stem : path -> str;
  path_str : path -> str;
  (** [Path(s)] *)
  path_of_str : str -> path;
  is_absolute : path -> bool;
  (** [p / name] and [p / q] *)
  path_div : path -> str -> path;
  path_join : path -> path -> path;
  parts : path -> list str;
  (** [Path] built from a list of parts *)
  path_of_parts : list str -> path;
  (** [p.relative_to(base)]; [None] when it raises [ValueError] *)
  relative_to : path -> path -> option path;
  resolve : FS -> path -> path;
  path_exists : FS -> path -> bool;
  (** [p.read_text(encoding="utf-8")] *)
  read_text : FS -> path -> res str;
  (** [directory.rglob("*.md")], in the order the walk yields them *)
  rglob_md : FS -> path -> list path;
  (** [path.mkdir(parents=True, exist_ok=True)] *)
  ensure_directory : FS -> path -> FS * res unit;
  (** [str(e)] *)
  exn_str : exn -> str;
  (** The markdown parse: the [src] attribute of every [img] element of the
      tree, in [root.iter("img")] order, and the serialized HTML once those
      attributes are set. *)
  md_images : str -> list (option str);
  md_html : str -> list (option str) -> str;
  (** [HTML(string=doc, base_url=base).render()] *)
  render : FS -> str -> path -> res Doc;
  (** setting [document.metadata] then [document.write_pdf(output_path)] *)
  write_pdf : FS -> Doc -> doc_meta -> path -> FS * res unit;
  py_lower : str -> str;
  py_uni_word : Z -> bool;
  py_unescape_refs : str -> str;
  (** [datetime.now().strftime("%B %d, %Y")] *)
  today : str
}.

(** Python's ordering of [str]: code points compared lexicographically. *)
Fixpoint lex_ltb {A : Type} (ltb eqb : A -> A -> bool) (a b : list A) : bool :=
  match a, b with
  | [], [] => false
  | [], _ :: _ => true
  | _ :: _, [] => false
  | x :: a', y :: b' =>
      if ltb x y then true
      else if eqb x y then lex_ltb ltb eqb a' b' else false
  end.

Definition str_ltb (a b : str) : bool := lex_ltb Z.ltb Z.eqb a b.

(** The longest common prefix of two part lists (the [zip] loop). *)
Fixpoint common_parts (a b : list str) : list str :=
  match a, b with
  | x :: a', y :: b' => if str_eqb x y then x :: common_parts a' b' else []
  | _, _ => []
  end.

(** A computation on the file system that returns a value or raises; the
    file system keeps the changes made before an exception. *)
Definition M `{platform} (A : Type) := FS -> FS * res A.

Definition rbind {A B : Type} (r : res A) (k : A -> res B) : res B :=
  match r with Ok a => k a | Raise e => Raise e end.

Section Composer.

Context `{platform}.

(** [ImagePathProcessor._resolve_image_path] *)
Definition resolve_image_path (fs : FS) (source_file : path) (p : str) : res path :=
  let img_path :=
    if is_absolute (path_of_str p) then path_of_str p
    else resolve fs (path_div (parent source_file) p) in
  if path_exists fs img_path then Ok img_path
  else Raise (InvalidMarkdownError
                (zs "Image not found: " ++ p ++ zs " (referenced in "
                 ++ path_str source_file ++ zs ")")).

(** [ImagePathProcessor.run]: every [img] with a non-empty [src] gets the
    resolved path; the first failure propagates out. *)
Fixpoint process_images (fs : FS) (source_file : path) (srcs : list (option str))
    : res (list (option str)) :=
  match srcs with
  | [] => Ok []
  | src :: rest =>
      match src with
      | Some s =>
          if is_empty s then rbind (process_images fs source_file rest) (fun r => Ok (src :: r))
          else
            rbind (resolve_image_path fs source_file s) (fun resolved =>
            rbind (process_images fs source_file rest) (fun r =>
            Ok (Some (path_str resolved) :: r)))
      | None => rbind (process_images fs source_file rest) (fun r => Ok (src :: r))
      end
  end.

(** [md.convert(content)] with the image extension bound to [source_file]. *)
Definition md_convert (fs : FS) (source_file : path) (content : str) : res str :=
  rbind (process_images fs source_file (md_images content)) (fun srcs =>
  Ok (md_html content srcs)).

(** The [read_text] guard of [convert_file] and [convert_merge]. *)
Definition read_source (fs : FS) (p : path) : res str :=
  match read_text fs p with
  | Ok content => Ok content
  | Raise (FileNotFoundError _) => Raise (InvalidMarkdownError (zs "File not found: " ++ path_str p))
  | Raise e => Raise (InvalidMarkdownError (zs "Error reading " ++ path_str p ++ zs ": " ++ exn_str e))
  end.

(** [except InvalidMarkdownError: raise] /
    [except Exception as e: raise ConversionError(prefix + str(e))] *)
Definition reraise_invalid {A : Type} (prefix : str) (r : FS * res A) : FS * res A :=
  match r with
  | (fs, Raise (InvalidMarkdownError m)) => (fs, Raise (InvalidMarkdownError m))
  | (fs, Raise e) => (fs, Raise (ConversionError (prefix ++ exn_str e)))
  | (fs, Ok a) => (fs, Ok a)
  end.

(** TOC prepended when enabled and some heading was found (otherwise a
    warning is printed). *)
Definition add_toc (toc_enabled : bool) (body : str) : str :=
  if toc_enabled then
    match extract_headers py_lower py_uni_word py_unescape_refs body with
    | [] => body
    | headers => generate_toc_html headers ++ body
    end
  else body.

Definition add_title_page (title_page_enabled : bool) (m : pdf_meta) (body : str) : str :=
  if title_page_enabled then generate_title_page_html today m ++ body else body.

(** [ensure_directory], [render], set metadata, [write_pdf]. *)
Definition render_and_write (fs : FS) (html_doc : str) (base_url output_path : path)
    (m : pdf_meta) : FS * res unit :=
  match ensure_directory fs (parent output_path) with
  | (fs1, Raise e) => (fs1, Raise e)
  | (fs1, Ok _) =>
      match render fs1 html_doc base_url with
      | Raise e => (fs1, Raise e)
      | Ok document => write_pdf fs1 document (doc_meta_of m) output_path
      end
  end.

(** [MarkdownConverter.convert_file]; [css] is [self.css]. *)
Definition convert_file (css : str) (input_path output_path : path) (toc_enabled : bool)
    (metadata : option metadata) (title_page_enabled : bool) : M unit :=
  fun fs =>
  match read_source fs input_path with
  | Raise e => (fs, Raise e)
  | Ok markdown_content =>
      reraise_invalid (zs "Error converting " ++ path_str input_path ++ zs " to PDF: ")
        (match md_convert fs input_path markdown_content with
         | Raise e => (fs, Raise e)
         | Ok html_body =>
             let pdf_metadata := pdf_metadata_of metadata (stem input_path) in
             let html_body :=
               add_title_page title_page_enabled pdf_metadata (add_toc toc_enabled html_body) in
             let html_doc := html_document (pm_title pdf_metadata) css html_body in
             render_and_write fs html_doc (parent input_path) output_path pdf_metadata
         end)
  end.

(** The [for path in input_paths] loop of [convert_merge]. *)
Fixpoint convert_sources (fs : FS) (input_paths : list path) : res (list str) :=
  match input_paths with
  | [] => Ok []
  | p :: ps =>
      rbind (read_source fs p) (fun content =>
      rbind (md_convert fs p content) (fun body =>
      rbind (convert_sources fs ps) (fun bodies =>
      Ok (body :: bodies))))
  end.

(** One round of the common-ancestor loop of [convert_merge]. *)
Definition merge_base_step (base_dir p : path) : path :=
  match relative_to base_dir (parent p) with
  | Some _ => base_dir
  | None =>
      match relative_to (parent p) base_dir with
      | Some _ => base_dir
      | None =>
          match common_parts (parts base_dir) (parts (parent p)) with
          | [] => base_dir
          | common => path_of_parts common
          end
      end
  end.

(** [MarkdownConverter.convert_merge] *)
Definition convert_merge (css : str) (input_paths : list path) (output_path : path)
    (toc_enabled : bool) (metadata : option metadata) (title_page_enabled : bool)
    : M unit :=
  fun fs =>
  match input_paths with
  | [] => (fs, Raise (InvalidMarkdownError (zs "No markdown files provided for merging")))
  | first :: others =>
      reraise_invalid (zs "Error merging files to PDF: ")
        (match convert_sources fs input_paths with
         | Raise e => (fs, Raise e)
         | Ok html_bodies =>
             let combined_html := join page_break html_bodies in
             let pdf_metadata := pdf_metadata_of metadata (stem output_path) in
             let combined_html :=
               add_title_page title_page_enabled pdf_metadata (add_toc toc_enabled combined_html) in
             let html_doc := html_document (pm_title pdf_metadata) css combined_html in
             let base_dir := fold_left merge_base_step others (parent first) in
             render_and_write fs html_doc base_dir output_path pdf_metadata
         end)
  end.

(** [Path.__lt__]: the part lists compared lexicographically. *)
Definition path_ltb (p q : path) : bool := lex_ltb str_ltb str_eqb (parts p) (parts q).

Fixpoint insert_path (x : path) (l : list path) : list path :=
  match l with
  | [] => [x]
  | y :: l' => if path_ltb x y then x :: l else y :: insert_path x l'
  end.

(** [sorted(...)]: a stable sort by [Path.__lt__]. *)
Definition sort_paths (l : list path) : list path :=
  fold_left (fun acc x => insert_path x acc) l [].

(** [utils.find_markdown_files] *)
Definition find_markdown_files (fs : FS) (directory : path) : list path :=
  sort_paths (rglob_md fs directory).

(** [utils.get_output_path]; [relative_to] raising is a [ValueError]. *)
Definition get_output_path (input_path input_dir output_dir : path)
    (preserve_structure : bool) : res path :=
  let pdf_name := stem input_path ++ zs ".pdf" in
  if preserve_structure then
    match relative_to input_path input_dir with
    | Some relative_path => Ok (path_div (path_join output_dir (parent relative_path)) pdf_name)
    | None => Raise (ValueError (path_str input_path ++ zs " is not in the subpath of "
                                 ++ path_str input_dir))
    end
  else Ok (path_div output_dir pdf_name).

Record conversion_result := {
  r_input : path;
  r_output : path;
  r_success : bool;
  r_error : option str
}.

(** The [try]/[except (InvalidMarkdownError, ConversionError)] around one
    [convert_file] call. *)
Definition result_of (md_file output_path : path) (r : res unit) : res conversion_result :=
  match r with
  | Ok _ => Ok {| r_input := md_file; r_output := output_path;
                  r_success := true; r_error := None |}
  | Raise (InvalidMarkdownError m)
  | Raise (ConversionError m) =>
      Ok {| r_input := md_file; r_output := output_path;
            r_success := false; r_error := Some m |}
  | Raise e => Raise e
  end.

(** The [for md_file in markdown_files] loop of [convert_directory]. *)
Fixpoint convert_each (css : str) (files : list path) (input_dir output_dir : path)
    (preserve_structure toc_enabled : bool) (metadata : option metadata)
    (title_page_enabled : bool) (fs : FS) : FS * res (list conversion_result) :=
  match files with
  | [] => (fs, Ok [])
  | md_file :: rest =>
      match get_output_path md_file input_dir output_dir preserve_structure with
      | Raise e => (fs, Raise e)
      | Ok output_path =>
          let (fs1, r) :=
            convert_file css md_file output_path toc_enabled metadata title_page_enabled fs in
          match result_of md_file output_path r with
          | Raise e => (fs1, Raise e)
          | Ok result =>
              match convert_each css rest input_dir output_dir preserve_structure
                      toc_enabled metadata title_page_enabled fs1 with
              | (fs2, Ok results) => (fs2, Ok (result :: results))
              | (fs2, Raise e) => (fs2, Raise e)
              end
          end
      end
  end.

(** [MarkdownConverter.convert_directory] *)
Definition convert_directory (css : str) (input_dir output_dir : path)
    (preserve_structure toc_enabled : bool) (metadata : option metadata)
    (title_page_enabled : bool) : M (list conversion_result) :=
  fun fs =>
  convert_each css (find_markdown_files fs input_dir) input_dir output_dir
    preserve_structure toc_enabled metadata title_page_enabled fs.

(** [p <= q] for [Path] ordering. *)
Definition path_le (p q : path) : Prop := path_ltb q p = false.

(** The two kinds of record [convert_directory] produces. *)
Definition result_shape (r : conversion_result) : Prop :=
  (r_success r = true /\ r_error r = None) \/
  (r_success r = false /\ exists m, r_error r = Some m).

(** The exit status of [cli.main] in directory mode once
    [convert_directory] has returned [results]. *)
Definition directory_exit_code (results : list conversion_result) : Z :=
  match results with
  | [] => 0
  | _ =>
      let success_count := List.length (filter r_success results) in
      let failure_count := (List.length results - success_count)%nat in
      if (failure_count =? 0)%nat then 0
      else if (success_count =? 0)%nat then 2
      else 1
  end.

End Composer.

(** ** An in-memory platform

    Paths are lists of parts and the file system is a list of files with
    their contents.  A markdown text that starts with an exclamation mark
    refers to one image, the rest of the text, and is its own HTML;
    a rendered document is its HTML
    and writing it adds it as a file.  It runs the composer on examples. *)

Fixpoint parts_eqb (a b : list str) : bool :=
  match a, b with
  | [], [] => true
  | x :: a', y :: b' => str_eqb x y && parts_eqb a' b'
  | _, _ => false
  end.

(** [p.relative_to(base)] on part lists. *)
Fixpoint strip_parts (base p : list str) : option (list str) :=
  match base, p with
  | [], _ => Some p
  | x :: base', y :: p' => if str_eqb x y then strip_parts base' p' else None
  | _ :: _, [] => None
  end.

Definition mem_lookup (fs : list (list str * str)) (p : list str) : option str :=
  option_map snd (find (fun e => parts_eqb (fst e) p) fs).

Definition exn_msg (e : exn) : str :=
  match e with
  | InvalidMarkdownError m | ConversionError m | ValueError m
  | FileNotFoundError m | OSError m => m
  end.

Definition mem_platform : platform := {|
  path := list str;
  FS := list (list str * str);
  Doc := str;
  parent := @removelast str;
  stem := fun p => last p [];
  path_str := join (zs "/");
  path_of_str := split_on 47;
  is_absolute := fun p => match p with [] :: _ => true | _ => false end;
  path_div := fun p s => p ++ split_on 47 s;
  path_join := fun p q => p ++ q;
  parts := fun p => p;
  path_of_parts := fun l => l;
  relative_to := fun p base => strip_parts base p;
  resolve := fun _ p => p;
  path_exists := fun fs p => match mem_lookup fs p with Some _ => true | None => false end;
  read_text := fun fs p =>
    match mem_lookup fs p with
    | Some c => Ok c
    | None => Raise (FileNotFoundError (join (zs "/") p))
    end;
  rglob_md := fun fs d =>
    filter (fun p => match strip_parts d p with Some _ => true | None => false end) (map fst fs);
  ensure_directory := fun fs _ => (fs, Ok tt);
  exn_str := exn_msg;
  md_images := fun c => match c with 33 :: img => [Some img] | _ => [] end;
  md_html := fun c _ => c;
  render := fun _ s _ => Ok s;
  write_pdf := fun fs d _ p => ((p, d) :: fs, Ok tt);
  py_lower := ascii_lower;
  py_uni_word := fun _ => false;
  py_unescape_refs := fun s => s;
  today := zs "today"
|}.

(** Not whitespace, and none of the characters less-than, greater-than,
    ampersand, double quote and single quote (code points 60 62 38 34 39). *)
Definition href_safe (c : Z) : Prop :=
  py_isspace c = false /\ c <> 60 /\ c <> 62 /\ c <> 38 /\ c <> 34 /\ c <> 39.

(** * Properties *)

(** ** Strings and sets *)

Lemma str_eqb_true (a b : str) : str_eqb a b = true <-> a = b.
Proof. unfold str_eqb. destruct (list_eq_dec Z.eq_dec a b); split; congruence. Qed.


Lemma mem_In (x : str) (l : list str) : mem x l = true <-> In x l.
Proof.
  unfold mem. rewrite existsb_exists. split.
  - intros [y [Hy Heq]]. apply str_eqb_true in Heq. subst. exact Hy.
  - intros Hx. exists x. split; [exact Hx | apply str_eqb_true; reflexivity].
Qed.

Lemma mem_false (x : str) (l : list str) : mem x l = false <-> ~ In x l.
Proof.
  rewrite <- mem_In. destruct (mem x l); split; congruence.
Qed.

Lemma uint_str_inj (d d' : Decimal.uint) : uint_str d = uint_str d' -> d = d'.
Proof.
  revert d'. induction d; destruct d'; simpl; intros Heq;
    try discriminate; inversion Heq; f_equal; auto.
Qed.

Lemma py_str_nat_inj (j k : nat) : py_str_nat j = py_str_nat k -> j = k.
Proof.
  unfold py_str_nat. intros Heq. apply uint_str_inj in Heq.
  apply DecimalNat.Unsigned.to_uint_inj. exact Heq.
Qed.

Lemma dup_candidate_inj (b : str) (j k : nat) :
  dup_candidate b j = dup_candidate b k -> j = k.
Proof.
  unfold dup_candidate. intros Heq. apply app_inv_head in Heq.
  inversion Heq. apply py_str_nat_inj. assumption.
Qed.

Lemma dup_candidate_neq_base (b : str) (k : nat) : dup_candidate b k <> b.
Proof.
  unfold dup_candidate. intros Heq.
  apply (f_equal (@List.length Z)) in Heq. rewrite length_app in Heq. simpl in Heq. lia.
Qed.

(** ** The counter loop *)

Section Counter.

Variables (base_id : str) (seen_ids : list str).

Lemma bump_counter_spec (fuel counter : nat) :
  let r := bump_counter base_id seen_ids fuel counter in
  (counter <= r <= counter + fuel)%nat /\
  (forall j, (counter <= j < r)%nat -> In (dup_candidate base_id j) seen_ids) /\
  (mem (dup_candidate base_id r) seen_ids = false \/ r = (counter + fuel)%nat).
Proof.
  revert counter. induction fuel as [|f IH]; intros counter; simpl.
  - split; [lia|]. split; [intros j Hj; lia | right; lia].
  - destruct (mem (dup_candidate base_id counter) seen_ids) eqn:Hm.
    + destruct (IH (S counter)) as [Hr [Hin Hend]].
      split; [lia|]. split.
      * intros j Hj. destruct (Nat.eq_dec j counter) as [->|Hne].
        -- apply mem_In. exact Hm.
        -- apply Hin. lia.
      * destruct Hend as [Hend|Hend]; [left; exact Hend | right; lia].
    + split; [lia|]. split; [intros j Hj; lia | left; exact Hm].
Qed.

(** The [while] loop never needs more than [len(seen_ids) + 1] rounds. *)
Lemma bump_counter_fresh :
  let r := bump_counter base_id seen_ids (S (List.length seen_ids)) 2 in
  (2 <= r)%nat /\
  (forall j, (2 <= j < r)%nat -> In (dup_candidate base_id j) seen_ids) /\
  ~ In (dup_candidate base_id r) seen_ids.
Proof.
  destruct (bump_counter_spec (S (List.length seen_ids)) 2) as [Hr [Hin Hend]].
  split; [lia|]. split; [exact Hin|].
  destruct Hend as [Hend|Hend]; [apply mem_false; exact Hend|].
  exfalso.
  assert (Hnd : NoDup (map (dup_candidate base_id) (seq 2 (S (List.length seen_ids))))).
  { apply Finite.Injective_map_NoDup; [|apply seq_NoDup].
    intros x y. apply dup_candidate_inj. }
  assert (Hincl : incl (map (dup_candidate base_id) (seq 2 (S (List.length seen_ids)))) seen_ids).
  { intros x Hx. apply in_map_iff in Hx. destruct Hx as [j [<- Hj]].
    apply in_seq in Hj. apply Hin. lia. }
  pose proof (NoDup_incl_length Hnd Hincl) as Hlen.
  rewrite length_map, length_seq in Hlen. lia.
Qed.

End Counter.

(** ** Character set of the generated ids *)

Lemma lstrip_by_head (p : Z -> bool) (s : str) :
  lstrip_by p s = [] \/ exists c r, lstrip_by p s = c :: r /\ p c = false.
Proof.
  induction s as [|x s IH]; simpl; [left; reflexivity|].
  destruct (p x) eqn:Hp; [exact IH | right; eauto].
Qed.

Lemma lstrip_by_in (p : Z -> bool) (s : str) (x : Z) : In x (lstrip_by p s) -> In x s.
Proof.
  induction s as [|y s IH]; simpl; [tauto|].
  destruct (p y); simpl; intros H; [right; auto | exact H].
Qed.

Lemma lstrip_by_keep_last (p : Z -> bool) (l : str) (c : Z) :
  p c = false -> exists z, lstrip_by p (l ++ [c]) = z ++ [c].
Proof.
  intros Hc. induction l as [|y l IH]; simpl.
  - rewrite Hc. exists []. reflexivity.
  - destruct (p y); [exact IH | exists (y :: l); reflexivity].
Qed.

Lemma strip_by_in (p : Z -> bool) (s : str) (x : Z) : In x (strip_by p s) -> In x s.
Proof.
  unfold strip_by. intros H. apply in_rev in H. apply lstrip_by_in in H.
  apply in_rev in H. apply lstrip_by_in in H. exact H.
Qed.

(** A stripped string is empty or starts with a kept character. *)
Lemma strip_by_head (p : Z -> bool) (s : str) :
  strip_by p s = [] \/ exists c r, strip_by p s = c :: r /\ p c = false.
Proof.
  unfold strip_by. destruct (lstrip_by_head p s) as [He|[c [r [He Hc]]]].
  - left. rewrite He. reflexivity.
  - right. rewrite He. simpl.
    destruct (lstrip_by_keep_last p (rev r) c Hc) as [z Hz].
    rewrite Hz, rev_app_distr. simpl. exists c, (rev z). split; [reflexivity | exact Hc].
Qed.

Lemma sub_disallowed_chars (s : str) : Forall (fun x => anchor_char x = true) (sub_disallowed s).
Proof.
  apply Forall_forall. intros x Hx. apply filter_In in Hx. apply Hx.
Qed.

Lemma sub_hyphen_runs_chars (P : Z -> Prop) (b : bool) (s : str) :
  P 45 -> Forall P s -> Forall P (sub_hyphen_runs b s).
Proof.
  intros H45 Hs. revert b. induction Hs as [|x s Hx Hs IH]; intros b; simpl; [constructor|].
  destruct (x =? 45) eqn:Hx45.
  - destruct b; [apply IH | constructor; [exact H45 | apply IH]].
  - constructor; [exact Hx | apply IH].
Qed.

Lemma uint_str_chars (d : Decimal.uint) : Forall (fun x => is_ascii_digit x = true) (uint_str d).
Proof. induction d; simpl; constructor; auto. Qed.

(** The base id: non-empty, ASCII lower-case letters, digits and
    hyphens, first character a letter or a digit. *)
Lemma anchor_base_chars (lowered : str) :
  exists c rest, anchor_base lowered = c :: rest /\
    ((97 <= c <= 122) \/ (48 <= c <= 57)) /\
    Forall (fun x => anchor_char x = true) rest.
Proof.
  unfold anchor_base.
  set (b := strip_by (Z.eqb 45) (sub_hyphen_runs false (sub_disallowed (replace_space lowered)))).
  assert (Hall : Forall (fun x => anchor_char x = true) b).
  { apply Forall_forall. intros x Hx. apply strip_by_in in Hx.
    revert x Hx. apply Forall_forall. apply sub_hyphen_runs_chars; [reflexivity|].
    apply sub_disallowed_chars. }
  destruct (strip_by_head (Z.eqb 45) (sub_hyphen_runs false (sub_disallowed (replace_space lowered))))
    as [He|[c [r [He Hc]]]]; fold b in He.
  - rewrite He. simpl. exists 104, (tl heading_fallback). split; [reflexivity|].
    split; [lia|]. repeat constructor.
  - rewrite He in *. simpl. exists c, r. split; [reflexivity|].
    inversion Hall as [|? ? Hcc Hr]; subst.
    split; [|exact Hr].
    unfold anchor_char, is_ascii_digit in Hcc. apply Z.eqb_neq in Hc.
    repeat rewrite Bool.orb_true_iff in Hcc. repeat rewrite Bool.andb_true_iff in Hcc.
    repeat rewrite Z.leb_le in Hcc. rewrite Z.eqb_eq in Hcc. lia.
Qed.

Lemma dup_candidate_chars (b : str) (k : nat) :
  Forall (fun x => anchor_char x = true) b ->
  Forall (fun x => anchor_char x = true) (dup_candidate b k).
Proof.
  intros Hb. unfold dup_candidate. apply Forall_app. split; [exact Hb|].
  constructor; [reflexivity|].
  eapply Forall_impl; [|apply uint_str_chars].
  intros x Hx. unfold anchor_char. rewrite Hx. rewrite Bool.orb_true_r. reflexivity.
Qed.

(** ** Claims on [generate_anchor_id] *)

(** The steps of [generate_anchor_id], its freshness and its update of
    [seen_ids]. *)
Lemma generate_anchor_id_spec (lower : str -> str) (text : str) (seen_ids : list str) :
  let b := strip_by (Z.eqb 45)
             (sub_hyphen_runs false (sub_disallowed (replace_space (lower text)))) in
  let base_id := if is_empty b then zs "heading" else b in
  let r := generate_anchor_id lower text seen_ids in
  fst r <> [] /\ ~ In (fst r) seen_ids /\ snd r = fst r :: seen_ids /\
  ((~ In base_id seen_ids /\ fst r = base_id) \/
   (In base_id seen_ids /\
    exists k, (2 <= k)%nat /\ fst r = base_id ++ zs "-" ++ py_str_nat k /\
      forall j, (2 <= j < k)%nat -> In (base_id ++ zs "-" ++ py_str_nat j) seen_ids)).
Proof.
  intros b base_id r.
  assert (Hbase : anchor_base (lower text) = base_id) by reflexivity.
  destruct (anchor_base_chars (lower text)) as [c [rest [Hcr _]]].
  unfold r, generate_anchor_id. rewrite Hbase. rewrite Hbase in Hcr.
  destruct (mem base_id seen_ids) eqn:Hm; simpl.
  - destruct (bump_counter_fresh base_id seen_ids) as [H2 [Hin Hfresh]].
    set (k := bump_counter base_id seen_ids (S (List.length seen_ids)) 2) in *.
    split; [unfold dup_candidate; destruct base_id; simpl; congruence|].
    split; [exact Hfresh|]. split; [reflexivity|].
    right. split; [apply mem_In; exact Hm|].
    exists k. split; [exact H2|]. split; [reflexivity|]. exact Hin.
  - split; [rewrite Hcr; discriminate|].
    split; [apply mem_false; exact Hm|]. split; [reflexivity|].
    left. split; [apply mem_false; exact Hm | reflexivity].
Qed.

(** The characters of a generated id. *)
Lemma generate_anchor_id_chars (lower : str -> str) (text : str) (seen_ids : list str) :
  exists c rest, fst (generate_anchor_id lower text seen_ids) = c :: rest /\
    ((97 <= c <= 122) \/ (48 <= c <= 57)) /\
    Forall (fun x => anchor_char x = true) rest.
Proof.
  destruct (anchor_base_chars (lower text)) as [c [rest [Hcr [Hc Hrest]]]].
  unfold generate_anchor_id. destruct (mem (anchor_base (lower text)) seen_ids); simpl.
  - exists c, (rest ++ 45 :: py_str_nat
                  (bump_counter (anchor_base (lower text)) seen_ids (S (List.length seen_ids)) 2)).
    unfold dup_candidate. rewrite Hcr. split; [reflexivity|]. split; [exact Hc|].
    assert (Hall : Forall (fun x => anchor_char x = true)
              (dup_candidate rest (bump_counter (c :: rest) seen_ids (S (List.length seen_ids)) 2)))
      by (apply dup_candidate_chars; exact Hrest).
    exact Hall.
  - exists c, rest. rewrite Hcr. auto.
Qed.

(** C4: [generate_anchor_id text seen] lower-cases [text], replaces
    spaces by hyphens, deletes every character outside [a-z0-9-],
    collapses hyphen runs, trims hyphens and falls back to "heading";
    it returns that base id when it is not in [seen], and otherwise
    [base-k] for the least [k >= 2] with [base-k] not in [seen].  The
    result is non-empty, was not in [seen], and is added to [seen]. *)
Theorem generate_anchor_id_algorithm (lower : str -> str) (text : str) (seen_ids : list str) :
  let b := strip_by (Z.eqb 45)
             (sub_hyphen_runs false (sub_disallowed (replace_space (lower text)))) in
  let base_id := if is_empty b then zs "heading" else b in
  let r := generate_anchor_id lower text seen_ids in
  fst r <> [] /\ ~ In (fst r) seen_ids /\ snd r = fst r :: seen_ids /\
  ((~ In base_id seen_ids /\ fst r = base_id) \/
   (In base_id seen_ids /\
    exists k, (2 <= k)%nat /\ fst r = base_id ++ zs "-" ++ py_str_nat k /\
      forall j, (2 <= j < k)%nat -> In (base_id ++ zs "-" ++ py_str_nat j) seen_ids)).
Proof. apply generate_anchor_id_spec. Qed.

(** C2 (corrected): the id returned by [generate_anchor_id] is non-empty,
    made of ASCII lower-case letters, digits and hyphens, and starts with
    a letter or a digit; it can start with a digit. *)
Theorem generate_anchor_id_charset (lower : str -> str) (text : str) (seen_ids : list str) :
  exists c rest, fst (generate_anchor_id lower text seen_ids) = c :: rest /\
    ((97 <= c <= 122) \/ (48 <= c <= 57)) /\
    Forall (fun x => anchor_char x = true) rest.
Proof. apply generate_anchor_id_chars. Qed.

(** C2 (counterexample): "2024" gives the id "2024", which the pattern
    [^[a-zA-Z][\w-]*$] rejects. *)
Lemma generate_anchor_id_digit_start :
  fst (generate_anchor_id ascii_lower (zs "2024") []) = zs "2024" /\
  valid_explicit_id (fun _ => false) (zs "2024") = false.
Proof. vm_compute. split; reflexivity. Qed.

(** ** The extraction loop *)

Section ExtractProofs.

Variables (lower : str -> str) (uni_word : Z -> bool) (refs : str -> str).

Lemma generate_anchor_id_snd (text : str) (seen_ids : list str) :
  snd (generate_anchor_id lower text seen_ids)
  = fst (generate_anchor_id lower text seen_ids) :: seen_ids.
Proof. apply (generate_anchor_id_spec lower text seen_ids). Qed.

Lemma generate_anchor_id_fresh (text : str) (seen_ids : list str) :
  ~ In (fst (generate_anchor_id lower text seen_ids)) seen_ids.
Proof. apply (generate_anchor_id_spec lower text seen_ids). Qed.

(** Each record comes from a match with its text; its id is the accepted
    explicit id, or an id absent from every earlier record and from the
    initial set. *)
Lemma extract_loop_origin (ms : list hmatch) (seen_ids : list str)
    (pre : list heading) (r : heading) (post : list heading) :
  extract_loop lower uni_word refs ms seen_ids = pre ++ r :: post ->
  exists m, In m ms /\ heading_text refs (m_content m) = h_text r /\
    ((accepts_explicit uni_word (explicit_anchor uni_word (m_attrs m)) = true /\ anchor_id r = explicit_anchor uni_word (m_attrs m)) \/
     (accepts_explicit uni_word (explicit_anchor uni_word (m_attrs m)) = false /\ ~ In (anchor_id r) (map anchor_id pre ++ seen_ids))).
Proof.
  revert seen_ids pre. induction ms as [|m ms IH]; intros seen_ids pre Heq; simpl in Heq.
  - destruct pre; discriminate.
  - destruct (is_empty (heading_text refs (m_content m))) eqn:Hempty.
    + destruct (IH _ _ Heq) as [m' [Hin Hm']]. exists m'. split; [right; exact Hin | exact Hm'].
    + destruct (accepts_explicit uni_word (explicit_anchor uni_word (m_attrs m))) eqn:Hacc.
      * destruct pre as [|r0 pre].
        -- inversion Heq; subst. exists m. simpl. split; [left; reflexivity|].
           split; [reflexivity|]. left. split; [exact Hacc | reflexivity].
        -- inversion Heq as [[Hr0 Hrest]].
           destruct (IH _ _ Hrest) as [m' [Hin [Htext Hcase]]].
           exists m'. split; [right; exact Hin|]. split; [exact Htext|].
           destruct Hcase as [Hl|[Hf Hnot]]; [left; exact Hl|right].
           split; [exact Hf|]. intros Hx. apply Hnot. subst r0. simpl in *.
           rewrite in_app_iff in *. simpl. tauto.
      * destruct pre as [|r0 pre].
        -- inversion Heq; subst. exists m. simpl. split; [left; reflexivity|].
           split; [reflexivity|]. right. split; [exact Hacc|].
           apply generate_anchor_id_fresh.
        -- inversion Heq as [[Hr0 Hrest]].
           destruct (IH _ _ Hrest) as [m' [Hin [Htext Hcase]]].
           exists m'. split; [right; exact Hin|]. split; [exact Htext|].
           destruct Hcase as [Hl|[Hf Hnot]]; [left; exact Hl|right].
           split; [exact Hf|]. intros Hx. apply Hnot.
           rewrite generate_anchor_id_snd. subst r0. simpl in *.
           rewrite in_app_iff in *. simpl. tauto.
Qed.

(** Without accepted explicit ids the ids avoid the initial set and are
    pairwise distinct. *)
Lemma extract_loop_nodup (ms : list hmatch) (seen_ids : list str) :
  (forall m, In m ms -> accepts_explicit uni_word (explicit_anchor uni_word (m_attrs m)) = false) ->
  NoDup (map anchor_id (extract_loop lower uni_word refs ms seen_ids)) /\
  (forall x, In x (map anchor_id (extract_loop lower uni_word refs ms seen_ids)) -> ~ In x seen_ids).
Proof.
  revert seen_ids. induction ms as [|m ms IH]; intros seen_ids Hno; simpl.
  - split; [constructor | tauto].
  - assert (Hno' : forall m', In m' ms -> accepts_explicit uni_word (explicit_anchor uni_word (m_attrs m')) = false)
      by (intros m' Hm'; apply Hno; right; exact Hm').
    destruct (is_empty (heading_text refs (m_content m))); [apply IH; exact Hno'|].
    pose proof (Hno m (or_introl eq_refl)) as Hm. rewrite Hm.
    set (g := generate_anchor_id lower (heading_text refs (m_content m)) seen_ids).
    destruct (IH (snd g) Hno') as [Hnd Hout].
    assert (Hsnd : snd g = fst g :: seen_ids) by apply generate_anchor_id_snd.
    simpl. rewrite Hsnd in *. split.
    + constructor; [|exact Hnd]. intros Hin. apply (Hout _ Hin). left. reflexivity.
    + intros x [<-|Hx]; [apply generate_anchor_id_fresh|].
      intros Hs. apply (Hout _ Hx). right. exact Hs.
Qed.

(** The [i]-th record comes from the [i]-th match with non-empty text: it
    carries that match's text, and its id is either that match's accepted
    explicit id or a generated id that none of the records before it and
    none of the initial ids has. *)
Lemma extract_loop_aligned (ms : list hmatch) (seen_ids : list str) :
  List.length (extract_loop lower uni_word refs ms seen_ids)
    = List.length (filter (fun m => negb (is_empty (heading_text refs (m_content m)))) ms) /\
  forall i r m,
    nth_error (extract_loop lower uni_word refs ms seen_ids) i = Some r ->
    nth_error (filter (fun m => negb (is_empty (heading_text refs (m_content m)))) ms) i = Some m ->
    h_text r = heading_text refs (m_content m) /\
    ((accepts_explicit uni_word (explicit_anchor uni_word (m_attrs m)) = true /\
      anchor_id r = explicit_anchor uni_word (m_attrs m)) \/
     (accepts_explicit uni_word (explicit_anchor uni_word (m_attrs m)) = false /\
      ~ In (anchor_id r)
          (map anchor_id (firstn i (extract_loop lower uni_word refs ms seen_ids)) ++ seen_ids))).
Proof.
  revert seen_ids. induction ms as [|m0 ms IH]; intros seen_ids.
  - split; [reflexivity|]. intros [|i] r m H; discriminate H.
  - cbn [extract_loop filter].
    destruct (is_empty (heading_text refs (m_content m0))) eqn:Hemp; cbn [negb]; [apply IH|].
    destruct (accepts_explicit uni_word (explicit_anchor uni_word (m_attrs m0))) eqn:Hacc.
    + destruct (IH (explicit_anchor uni_word (m_attrs m0) :: seen_ids)) as [Hlen Hal].
      split; [cbn [List.length]; rewrite Hlen; reflexivity|].
      intros [|i] r m Hr Hm.
      * injection Hr as <-. injection Hm as <-. cbn. split; [reflexivity|]. left. split; [exact Hacc | reflexivity].
      * cbn [nth_error] in Hr, Hm.
        destruct (Hal i r m Hr Hm) as [Ht [Hl|[Hf Hn]]]; split; try exact Ht; [left; exact Hl|].
        right. split; [exact Hf|]. intros Hin. apply Hn.
        cbn [firstn map app anchor_id] in Hin. rewrite in_app_iff. cbn [In].
        destruct Hin as [Hx|Hin]; [right; left; exact Hx|]. rewrite in_app_iff in Hin. tauto.
    + destruct (IH (snd (generate_anchor_id lower (heading_text refs (m_content m0)) seen_ids))) as [Hlen Hal].
      split; [cbn [List.length]; rewrite Hlen; reflexivity|].
      intros [|i] r m Hr Hm.
      * injection Hr as <-. injection Hm as <-. cbn [h_text anchor_id firstn map app].
        split; [reflexivity|]. right. split; [exact Hacc|]. apply generate_anchor_id_fresh.
      * cbn [nth_error] in Hr, Hm.
        destruct (Hal i r m Hr Hm) as [Ht [Hl|[Hf Hn]]]; split; try exact Ht; [left; exact Hl|].
        right. split; [exact Hf|]. intros Hin. apply Hn.
        pose proof (generate_anchor_id_snd (heading_text refs (m_content m0)) seen_ids) as Hs.
        cbn [firstn map app anchor_id] in Hin. rewrite in_app_iff.
        destruct Hin as [Hx|Hin]; [right; rewrite Hs; left; exact Hx|].
        rewrite in_app_iff in Hin.
        destruct Hin as [Hx|Hx]; [left; exact Hx | right; rewrite Hs; right; exact Hx].
Qed.

End ExtractProofs.

(** ** Characters that are safe inside the [href] attribute *)

Ltac zbool_cases :=
  repeat match goal with
         | |- context [?a <=? ?b] => destruct (Z.leb_spec a b); try lia; simpl
         | |- context [?a =? ?b] => destruct (Z.eqb_spec a b); try lia; simpl
         end.

Lemma py_isspace_visible (c : Z) : 33 <= c <= 127 -> py_isspace c = false.
Proof. intros Hc. unfold py_isspace. zbool_cases; reflexivity. Qed.

Lemma py_isspace_high (c : Z) : 128 <= c -> c <= 132 -> py_isspace c = false.
Proof. intros H1 H2. unfold py_isspace. zbool_cases; reflexivity. Qed.

Lemma anchor_char_safe (c : Z) : anchor_char c = true -> href_safe c.
Proof.
  unfold anchor_char, is_ascii_digit. intros Hc.
  repeat rewrite Bool.orb_true_iff in Hc. repeat rewrite Bool.andb_true_iff in Hc.
  repeat rewrite Z.leb_le in Hc. rewrite Z.eqb_eq in Hc.
  unfold href_safe. rewrite py_isspace_visible by lia. lia.
Qed.

Lemma ascii_letter_safe (c : Z) : is_ascii_letter c = true -> href_safe c.
Proof.
  unfold is_ascii_letter. intros Hc.
  repeat rewrite Bool.orb_true_iff in Hc. repeat rewrite Bool.andb_true_iff in Hc.
  repeat rewrite Z.leb_le in Hc.
  unfold href_safe. rewrite py_isspace_visible by lia. lia.
Qed.

Lemma strip_by_last (p : Z -> bool) (s : str) :
  strip_by p s = [] \/ exists z c, strip_by p s = z ++ [c] /\ p c = false.
Proof.
  unfold strip_by.
  destruct (lstrip_by_head p (rev (lstrip_by p s))) as [He|[c [r [He Hc]]]];
    rewrite He; [left; reflexivity|].
  right. exists (rev r), c. split; [reflexivity | exact Hc].
Qed.

Section SafeIds.

Variable uni_word : Z -> bool.

(** [\w] has no whitespace outside ASCII either (true of CPython's
    [str.isalnum]). *)
Hypothesis uni_word_not_space : forall c, 128 <= c -> uni_word c = true -> py_isspace c = false.

Lemma id_tail_char_safe (c : Z) : id_tail_char uni_word c = true -> href_safe c.
Proof.
  unfold id_tail_char, is_word. intros Hc. apply Bool.orb_true_iff in Hc.
  destruct Hc as [Hc|Hc].
  - destruct (Z.ltb_spec c 128) as [Hlt|Hge].
    + unfold ascii_word in Hc. apply Bool.orb_true_iff in Hc. destruct Hc as [Hc|Hc].
      * apply Bool.orb_true_iff in Hc. destruct Hc as [Hc|Hc]; [apply ascii_letter_safe; exact Hc|].
        apply anchor_char_safe. unfold anchor_char. rewrite Hc, Bool.orb_true_r. reflexivity.
      * apply Z.eqb_eq in Hc. subst. unfold href_safe. rewrite py_isspace_visible by lia. lia.
    + unfold href_safe. rewrite (uni_word_not_space c Hge Hc). lia.
  - apply Z.eqb_eq in Hc. subst. apply anchor_char_safe. reflexivity.
Qed.

(** An explicit id that passed the check is non-empty and every character
    is safe: the final-newline case of [$] cannot occur after [strip]. *)
Lemma accepted_id_safe (v : str) :
  valid_explicit_id uni_word (py_strip v) = true ->
  py_strip v <> [] /\ Forall href_safe (py_strip v).
Proof.
  intros Hv. destruct (py_strip v) as [|c rest] eqn:Hs; [discriminate|].
  split; [discriminate|]. simpl in Hv.
  apply andb_prop in Hv. destruct Hv as [Hc Htail].
  constructor; [apply ascii_letter_safe; exact Hc|].
  apply Bool.orb_true_iff in Htail. destruct Htail as [Hall|Hnl].
  - apply Forall_forall. intros x Hx. apply id_tail_char_safe.
    rewrite forallb_forall in Hall. apply Hall. exact Hx.
  - exfalso. destruct (rev rest) as [|nl r] eqn:Hr; [discriminate|].
    apply andb_prop in Hnl. destruct Hnl as [Hnl _]. apply Z.eqb_eq in Hnl. subst nl.
    assert (Hrest : rest = rev r ++ [10]) by (rewrite <- (rev_involutive rest), Hr; reflexivity).
    unfold py_strip in Hs.
    destruct (strip_by_last py_isspace v) as [He|[z [c' [He Hc']]]]; rewrite Hs in He;
      [discriminate|].
    rewrite Hrest in He. change (c :: rev r ++ [10]) with ((c :: rev r) ++ [10]) in He.
    apply app_inj_tail in He. destruct He as [_ <-]. discriminate.
Qed.

Lemma explicit_anchor_accepted_safe (attrs : str) :
  accepts_explicit uni_word (explicit_anchor uni_word attrs) = true ->
  explicit_anchor uni_word attrs <> [] /\ Forall href_safe (explicit_anchor uni_word attrs).
Proof.
  unfold accepts_explicit, explicit_anchor. intros Hacc. apply andb_prop in Hacc.
  destruct Hacc as [Hne Hv]. destruct (search_id uni_word false attrs) as [v|].
  - apply accepted_id_safe. exact Hv.
  - discriminate.
Qed.

End SafeIds.

Lemma generate_anchor_id_safe (lower : str -> str) (text : str) (seen_ids : list str) :
  fst (generate_anchor_id lower text seen_ids) <> [] /\
  Forall href_safe (fst (generate_anchor_id lower text seen_ids)).
Proof.
  destruct (generate_anchor_id_chars lower text seen_ids) as [c [rest [Hcr [Hc Hrest]]]].
  rewrite Hcr. split; [discriminate|]. constructor.
  - apply anchor_char_safe. unfold anchor_char, is_ascii_digit.
    destruct Hc as [Hc|Hc].
    + rewrite (proj2 (Z.leb_le 97 c)), (proj2 (Z.leb_le c 122)) by lia. reflexivity.
    + rewrite (proj2 (Z.leb_le 48 c)), (proj2 (Z.leb_le c 57)) by lia.
      rewrite Bool.orb_true_r. reflexivity.
  - eapply Forall_impl; [|exact Hrest]. intros x Hx. apply anchor_char_safe. exact Hx.
Qed.

Lemma extract_loop_anchor_forall (lower : str -> str) (uni_word : Z -> bool) (refs : str -> str)
    (Q : str -> Prop) (ms : list hmatch) (seen_ids : list str) :
  (forall m, In m ms -> accepts_explicit uni_word (explicit_anchor uni_word (m_attrs m)) = true ->
             Q (explicit_anchor uni_word (m_attrs m))) ->
  (forall t s, Q (fst (generate_anchor_id lower t s))) ->
  Forall (fun r => Q (anchor_id r)) (extract_loop lower uni_word refs ms seen_ids).
Proof.
  intros Hexp Hgen. revert seen_ids. induction ms as [|m ms IH]; intros seen_ids; simpl.
  - constructor.
  - assert (Hexp' : forall m', In m' ms ->
              accepts_explicit uni_word (explicit_anchor uni_word (m_attrs m')) = true ->
              Q (explicit_anchor uni_word (m_attrs m')))
      by (intros m' Hm'; apply Hexp; right; exact Hm').
    destruct (is_empty (heading_text refs (m_content m))); [apply IH; exact Hexp'|].
    destruct (accepts_explicit uni_word (explicit_anchor uni_word (m_attrs m))) eqn:Hacc;
      constructor; simpl; auto.
    apply Hexp; [left; reflexivity | exact Hacc].
Qed.

Lemma extract_loop_app (lower : str -> str) (uni_word : Z -> bool) (refs : str -> str)
    (ms1 ms2 : list hmatch) (seen_ids : list str) :
  exists seen1,
    (forall x, In x seen1 <->
       In x (map anchor_id (extract_loop lower uni_word refs ms1 seen_ids)) \/ In x seen_ids) /\
    extract_loop lower uni_word refs (ms1 ++ ms2) seen_ids =
      extract_loop lower uni_word refs ms1 seen_ids ++ extract_loop lower uni_word refs ms2 seen1.
Proof.
  revert seen_ids. induction ms1 as [|m ms1 IH]; intros seen_ids; simpl.
  - exists seen_ids. split; [tauto | reflexivity].
  - destruct (is_empty (heading_text refs (m_content m))); [apply IH|].
    destruct (accepts_explicit uni_word (explicit_anchor uni_word (m_attrs m))).
    + destruct (IH (explicit_anchor uni_word (m_attrs m) :: seen_ids)) as [s1 [Hs1 He]].
      exists s1. split; [|rewrite He; reflexivity].
      intros x. specialize (Hs1 x). simpl in *. tauto.
    + destruct (IH (snd (generate_anchor_id lower (heading_text refs (m_content m)) seen_ids)))
        as [s1 [Hs1 He]].
      exists s1. split; [|rewrite He; reflexivity].
      intros x. specialize (Hs1 x). rewrite generate_anchor_id_snd in Hs1 |- *. simpl in *. tauto.
Qed.

Lemma extract_loop_text_level (lower : str -> str) (uni_word : Z -> bool) (refs : str -> str)
    (ms : list hmatch) (seen_ids : list str) :
  map (fun r => (h_text r, h_level r)) (extract_loop lower uni_word refs ms seen_ids) =
  map (fun m => (heading_text refs (m_content m), digit_to_level (m_digit m)))
      (filter (fun m => negb (is_empty (heading_text refs (m_content m)))) ms).
Proof.
  revert seen_ids. induction ms as [|m ms IH]; intros seen_ids; simpl; [reflexivity|].
  destruct (is_empty (heading_text refs (m_content m))); simpl; [apply IH|].
  destruct (accepts_explicit uni_word (explicit_anchor uni_word (m_attrs m))); simpl;
    f_equal; apply IH.
Qed.

(** ** Claims on [extract_headers] *)

(** C1 (corrected): anchor ids of one extraction are not always pairwise
    distinct, since an accepted explicit id is kept as it is.  What holds:
    the [i]-th record comes from the [i]-th heading match with non-empty
    text; if its id repeats the id of an earlier record, that heading's
    own explicit id was accepted and the record's id is that id; a
    generated id never equals the id of an earlier record; when no
    heading's explicit id is accepted, all anchor ids are pairwise
    distinct. *)
Theorem extract_headers_anchor_repeats (lower : str -> str) (uni_word : Z -> bool)
    (refs : str -> str) (html : str) :
  List.length (extract_headers lower uni_word refs html)
    = List.length (filter (fun m => negb (is_empty (heading_text refs (m_content m))))
                     (heading_matches uni_word html)) /\
  (forall i r m,
     nth_error (extract_headers lower uni_word refs html) i = Some r ->
     nth_error (filter (fun m => negb (is_empty (heading_text refs (m_content m))))
                  (heading_matches uni_word html)) i = Some m ->
     h_text r = heading_text refs (m_content m) /\
     (In (anchor_id r) (map anchor_id (firstn i (extract_headers lower uni_word refs html))) ->
        accepts_explicit uni_word (explicit_anchor uni_word (m_attrs m)) = true /\
        anchor_id r = explicit_anchor uni_word (m_attrs m)) /\
     (accepts_explicit uni_word (explicit_anchor uni_word (m_attrs m)) = false ->
        ~ In (anchor_id r) (map anchor_id (firstn i (extract_headers lower uni_word refs html))))) /\
  ((forall m, In m (heading_matches uni_word html) ->
      accepts_explicit uni_word (explicit_anchor uni_word (m_attrs m)) = false) ->
   NoDup (map anchor_id (extract_headers lower uni_word refs html))).
Proof.
  destruct (extract_loop_aligned lower uni_word refs (heading_matches uni_word html) [])
    as [Hlen Hal].
  unfold extract_headers. split; [exact Hlen|]. split.
  - intros i r m Hr Hm.
    destruct (Hal i r m Hr Hm) as [Ht Hcase]. rewrite app_nil_r in Hcase.
    split; [exact Ht|]. split.
    + intros Hin. destruct Hcase as [Hl|[_ Hn]]; [exact Hl | contradiction].
    + intros Hf. destruct Hcase as [[Ht' _]|[_ Hn]]; [congruence | exact Hn].
  - intros Hno. apply (extract_loop_nodup lower uni_word refs _ [] Hno).
Qed.

(** C1 (counterexample): a generated id followed by the same explicit id:
    [<h1>x</h1><h1 id=QxQ>B</h1>] with Q a double quote gives the anchor
    ids [x] and [x]. *)
Lemma extract_headers_duplicate_anchor :
  map anchor_id (extract_headers ascii_lower (fun _ => false) (fun s => s)
    (zs "<h1>x</h1><h1 id=" ++ dq ++ zs "x" ++ dq ++ zs ">B</h1>")) = [zs "x"; zs "x"].
Proof. vm_compute. reflexivity. Qed.

Lemma extract_headers_anchor_repeats_witness :
  NoDup (map anchor_id (extract_headers ascii_lower (fun _ => false) (fun s => s)
    (zs "<h1>A</h1><h2>A</h2>"))).
Proof.
  apply (proj2 (proj2 (extract_headers_anchor_repeats ascii_lower (fun _ => false) (fun s => s)
    (zs "<h1>A</h1><h2>A</h2>")))).
  intros m Hm. vm_compute in Hm. destruct Hm as [<-|[<-|[]]]; vm_compute; reflexivity.
Defined.

(** C10: every anchor id returned by [extract_headers], explicit or
    generated, is non-empty and contains no whitespace and none of the
    characters less-than, greater-than, ampersand, double quote and single
    quote, so it cannot end the [href] attribute of a TOC link.  The
    hypothesis says that [\w] matches no whitespace outside ASCII. *)
Theorem extract_headers_href_safe (lower : str -> str) (uni_word : Z -> bool)
    (refs : str -> str) (html : str)
    (Huni : forall c, 128 <= c -> uni_word c = true -> py_isspace c = false) :
  Forall (fun r => anchor_id r <> [] /\ Forall href_safe (anchor_id r))
    (extract_headers lower uni_word refs html).
Proof.
  apply (extract_loop_anchor_forall lower uni_word refs
           (fun a => a <> [] /\ Forall href_safe a)).
  - intros m _ Hacc. apply explicit_anchor_accepted_safe; assumption.
  - intros t s. apply generate_anchor_id_safe.
Qed.

Lemma extract_headers_href_safe_witness :
  Forall (fun r => anchor_id r <> [] /\ Forall href_safe (anchor_id r))
    (extract_headers ascii_lower (fun _ => false) (fun s => s) (zs "<h1>A &amp; B</h1>")).
Proof.
  apply extract_headers_href_safe. intros c _ H. discriminate H.
Defined.

(** The explicit id is the stripped value of the first match of [\bid=]
    followed by a double-quoted value in the attribute text.  When it is
    non-empty and matches [^[a-zA-Z][\w-]*$], the record keeps it as its
    anchor id and it is added to the shared seen set; otherwise the anchor
    id is generated from the heading text with the seen set built so far.
    The hypothesis says that [\w] matches no whitespace outside ASCII. *)
Lemma extract_headers_explicit_id (lower : str -> str) (uni_word : Z -> bool)
    (refs : str -> str)
    (Huni : forall c, 128 <= c -> uni_word c = true -> py_isspace c = false)
    (html : str) (ms1 : list hmatch) (m : hmatch) (ms2 : list hmatch) :
  heading_matches uni_word html = ms1 ++ m :: ms2 ->
  heading_text refs (m_content m) <> [] ->
  let anchor := explicit_anchor uni_word (m_attrs m) in
  let text := heading_text refs (m_content m) in
  let level := digit_to_level (m_digit m) in
  anchor = match search_id uni_word false (m_attrs m) with
           | Some v => py_strip v
           | None => []
           end /\
  (accepts_explicit uni_word anchor = true <->
     anchor <> [] /\ valid_explicit_id uni_word anchor = true) /\
  ((exists c, In c anchor /\ py_isspace c = true) -> accepts_explicit uni_word anchor = false) /\
  exists seen1,
    (forall x, In x seen1 <-> In x (map anchor_id (extract_loop lower uni_word refs ms1 []))) /\
    extract_headers lower uni_word refs html =
      extract_loop lower uni_word refs ms1 [] ++
      if accepts_explicit uni_word anchor
      then {| h_text := text; h_level := level; anchor_id := anchor |}
             :: extract_loop lower uni_word refs ms2 (anchor :: seen1)
      else {| h_text := text; h_level := level;
              anchor_id := fst (generate_anchor_id lower text seen1) |}
             :: extract_loop lower uni_word refs ms2 (snd (generate_anchor_id lower text seen1)).
Proof.
  intros Hms Hne anchor text level.
  split; [reflexivity|].
  split.
  { unfold accepts_explicit. rewrite Bool.andb_true_iff.
    destruct anchor; simpl; split; intros [H1 H2]; split; try congruence; try discriminate. }
  split.
  { intros [c [Hc Hsp]].
    destruct (accepts_explicit uni_word anchor) eqn:Hacc; [|reflexivity].
    destruct (explicit_anchor_accepted_safe uni_word Huni (m_attrs m) Hacc) as [_ Hall].
    rewrite Forall_forall in Hall. destruct (Hall c Hc) as [Hns _].
    congruence. }
  destruct (extract_loop_app lower uni_word refs ms1 (m :: ms2) []) as [seen1 [Hs1 He]].
  exists seen1. split.
  { intros x. rewrite Hs1. simpl. tauto. }
  unfold extract_headers. rewrite Hms, He. f_equal. simpl.
  destruct (is_empty (heading_text refs (m_content m))) eqn:Hemp.
  { exfalso. apply Hne. destruct (heading_text refs (m_content m)); [reflexivity | discriminate]. }
  reflexivity.
Qed.

(** C5 (code bug): the explicit id is read with the pattern [\bid=]
    followed by a double-quoted value, so a valid [id=Qmy-idQ] (Q a double
    quote) is kept and [id=Q123badQ] or [id=Qa bQ] give a generated id, as
    the claim says; but the word boundary also holds after the hyphen of
    [data-id], so with [data-id=QaQ] before [id=Qmy-idQ] the record's anchor
    id is [a], not the heading's id attribute [my-id]; a single-quoted
    [id='my-id'] is not read at all. *)
Theorem extract_headers_data_id_taken :
  map anchor_id (extract_headers ascii_lower (fun _ => false) (fun s => s)
    (zs "<h2 id=" ++ dq ++ zs "my-id" ++ dq ++ zs ">Title</h2>")) = [zs "my-id"] /\
  map anchor_id (extract_headers ascii_lower (fun _ => false) (fun s => s)
    (zs "<h2 id=" ++ dq ++ zs "123bad" ++ dq ++ zs ">Title</h2>")) = [zs "title"] /\
  map anchor_id (extract_headers ascii_lower (fun _ => false) (fun s => s)
    (zs "<h2 id=" ++ dq ++ zs "a b" ++ dq ++ zs ">Title</h2>")) = [zs "title"] /\
  map anchor_id (extract_headers ascii_lower (fun _ => false) (fun s => s)
    (zs "<h2 data-id=" ++ dq ++ zs "a" ++ dq ++ zs " id=" ++ dq ++ zs "my-id" ++ dq
       ++ zs ">Title</h2>")) = [zs "a"] /\
  map anchor_id (extract_headers ascii_lower (fun _ => false) (fun s => s)
    (zs "<h2 id='my-id'>Title</h2>")) = [zs "title"].
Proof. vm_compute. repeat split. Qed.

(** C6: [extract_headers] lists the [h1] and [h2] headings in the order
    of their matches in the document, levels interleaved, leaving out
    those with empty text; on [<h1>A</h1><h2>B</h2><h1>C</h1>] it gives
    exactly A at level 1, B at level 2 and C at level 1. *)
Theorem extract_headers_document_order (lower : str -> str) (uni_word : Z -> bool)
    (refs : str -> str) :
  (forall html,
     map (fun r => (h_text r, h_level r)) (extract_headers lower uni_word refs html) =
     map (fun m => (heading_text refs (m_content m), digit_to_level (m_digit m)))
       (filter (fun m => negb (is_empty (heading_text refs (m_content m))))
          (heading_matches uni_word html))) /\
  map (fun r => (h_text r, h_level r))
    (extract_headers lower uni_word refs (zs "<h1>A</h1><h2>B</h2><h1>C</h1>"))
  = [(zs "A", 1); (zs "B", 2); (zs "C", 1)].
Proof.
  split.
  - intros html. apply extract_loop_text_level.
  - unfold extract_headers. rewrite extract_loop_text_level. vm_compute. reflexivity.
Qed.

(** ** Claim on [get_page_number_css] *)

(** C3: [get_page_number_css] returns the empty string when page numbers
    are disabled, and for ["{page}/{pages}"] the content
    [counter(page) "/" counter(pages)].  The loop looks for [{page}]
    anywhere in the rest of the format before it looks for [{pages}], so a
    [{pages}] that comes before a [{page}] is kept as literal text: for
    ["{pages} of {page}"] the content is the string token
    ["{pages} of "] followed by [counter(page)], not
    [counter(pages) " of " counter(page)]. *)
Theorem get_page_number_css_pages_first :
  (forall position fmt,
     get_page_number_css {| enable_page_numbers := false; page_number_position := position;
                            page_number_format := fmt |} = Ok []) /\
  get_page_number_css {| enable_page_numbers := true; page_number_position := zs "center";
                         page_number_format := zs "{page}/{pages}" |}
  = Ok (page_number_block (zs "@bottom-center")
          (zs "counter(page) " ++ dq ++ zs "/" ++ dq ++ zs " counter(pages)")) /\
  get_page_number_css {| enable_page_numbers := true; page_number_position := zs "center";
                         page_number_format := zs "{pages} of {page}" |}
  = Ok (page_number_block (zs "@bottom-center") (dq ++ zs "{pages} of " ++ dq ++ zs " counter(page)")) /\
  get_page_number_css {| enable_page_numbers := true; page_number_position := zs "center";
                         page_number_format := zs "{pages} of {page}" |}
  <> Ok (page_number_block (zs "@bottom-center")
           (zs "counter(pages) " ++ dq ++ zs " of " ++ dq ++ zs " counter(page)")).
Proof.
  split; [intros; reflexivity|].
  split; [vm_compute; reflexivity|].
  split; [vm_compute; reflexivity|].
  vm_compute. discriminate.
Qed.

(** ** Ordering of paths *)

Section Lex.

Context {A : Type} (ltb eqb : A -> A -> bool).

Hypothesis ltb_irrefl : forall x, ltb x x = false.
Hypothesis ltb_asym : forall x y, ltb x y = true -> ltb y x = false.
Hypothesis eqb_eq : forall x y, eqb x y = true -> x = y.

Lemma lex_ltb_irrefl (a : list A) : lex_ltb ltb eqb a a = false.
Proof.
  induction a as [|x a IH]; simpl; [reflexivity|].
  rewrite ltb_irrefl. destruct (eqb x x); [exact IH | reflexivity].
Qed.

Lemma lex_ltb_asym (a b : list A) : lex_ltb ltb eqb a b = true -> lex_ltb ltb eqb b a = false.
Proof.
  revert b. induction a as [|x a IH]; intros [|y b] Hab; simpl in *; try discriminate; try reflexivity.
  destruct (ltb x y) eqn:Hxy.
  - rewrite (ltb_asym _ _ Hxy).
    destruct (eqb y x) eqn:Hyx; [|reflexivity].
    apply eqb_eq in Hyx. subst. rewrite ltb_irrefl in Hxy. discriminate.
  - destruct (eqb x y) eqn:Heq; [|discriminate].
    apply eqb_eq in Heq. subst. rewrite ltb_irrefl.
    destruct (eqb y y); [apply IH; exact Hab | reflexivity].
Qed.

End Lex.

Lemma str_ltb_irrefl (a : str) : str_ltb a a = false.
Proof.
  apply lex_ltb_irrefl. apply Z.ltb_irrefl.
Qed.

Lemma str_ltb_asym (a b : str) : str_ltb a b = true -> str_ltb b a = false.
Proof.
  apply lex_ltb_asym.
  - apply Z.ltb_irrefl.
  - intros x y H. apply Z.ltb_lt in H. apply Z.ltb_ge. lia.
  - intros x y H. apply Z.eqb_eq. exact H.
Qed.

Section ComposerProofs.

Context `{platform}.

Lemma path_ltb_asym (p q : path) : path_ltb p q = true -> path_ltb q p = false.
Proof.
  unfold path_ltb. apply lex_ltb_asym.
  - apply str_ltb_irrefl.
  - apply str_ltb_asym.
  - intros x y Hxy. apply str_eqb_true. exact Hxy.
Qed.

Lemma insert_path_sorted (x : path) (l : list path) :
  Sorted path_le l -> Sorted path_le (insert_path x l).
Proof.
  induction l as [|y l IH]; intros Hs; simpl.
  - constructor; constructor.
  - destruct (path_ltb x y) eqn:Hxy.
    + constructor; [exact Hs|]. constructor. unfold path_le. apply path_ltb_asym. exact Hxy.
    + apply Sorted_inv in Hs. destruct Hs as [Hl Hhd].
      constructor; [apply IH; exact Hl|].
      destruct l as [|z l']; simpl.
      * constructor. exact Hxy.
      * destruct (path_ltb x z); constructor; [exact Hxy|].
        inversion Hhd; assumption.
Qed.

Lemma insert_path_perm (x : path) (l : list path) : Permutation (insert_path x l) (x :: l).
Proof.
  induction l as [|y l IH]; simpl; [reflexivity|].
  destruct (path_ltb x y); [reflexivity|].
  rewrite IH. apply perm_swap.
Qed.

Lemma sort_paths_spec (l : list path) :
  Sorted path_le (sort_paths l) /\ Permutation (sort_paths l) l.
Proof.
  unfold sort_paths.
  assert (Hgen : forall acc, Sorted path_le acc ->
            Sorted path_le (fold_left (fun acc x => insert_path x acc) l acc) /\
            Permutation (fold_left (fun acc x => insert_path x acc) l acc) (l ++ acc)).
  { induction l as [|x l IH]; intros acc Hacc; simpl; [split; [exact Hacc | reflexivity]|].
    destruct (IH (insert_path x acc) (insert_path_sorted x acc Hacc)) as [Hs Hp].
    split; [exact Hs|]. rewrite Hp, insert_path_perm. symmetry. apply Permutation_middle. }
  destruct (Hgen [] (Sorted_nil _)) as [Hs Hp]. rewrite app_nil_r in Hp. split; assumption.
Qed.

Lemma join_cons_concat (sep b : str) (bs : list str) :
  join sep (b :: bs) = b ++ List.concat (map (fun g => sep ++ g) bs).
Proof.
  revert b. induction bs as [|c bs IH]; intros b.
  - simpl. rewrite app_nil_r. reflexivity.
  - change (join sep (b :: c :: bs)) with (b ++ sep ++ join sep (c :: bs)).
    rewrite IH. simpl. rewrite !app_assoc. reflexivity.
Qed.

Lemma convert_sources_spec (fs : FS) (ps : list path) (bodies : list str) :
  convert_sources fs ps = Ok bodies ->
  Forall2 (fun p b => exists c, read_source fs p = Ok c /\ md_convert fs p c = Ok b) ps bodies.
Proof.
  revert bodies. induction ps as [|p ps IH]; intros bodies Hs; simpl in Hs.
  - inversion Hs. constructor.
  - destruct (read_source fs p) as [c|e] eqn:Hr; simpl in Hs; [|discriminate].
    destruct (md_convert fs p c) as [b|e] eqn:Hm; simpl in Hs; [|discriminate].
    destruct (convert_sources fs ps) as [bs|e]; simpl in Hs; [|discriminate].
    inversion Hs; subst. constructor; [exists c; split; assumption|]. apply IH. reflexivity.
Qed.

Lemma process_images_first_failure (fs : FS) (source_file : path) (pre post : list (option str))
    (pre' : list (option str)) (ref : str) (e : exn) :
  process_images fs source_file pre = Ok pre' ->
  ref <> [] ->
  resolve_image_path fs source_file ref = Raise e ->
  process_images fs source_file (pre ++ Some ref :: post) = Raise e.
Proof.
  intros Hpre Hne Hres. revert pre' Hpre.
  induction pre as [|x pre IH]; intros pre' Hpre; simpl.
  - destruct ref as [|c r]; [congruence|]. simpl. rewrite Hres. reflexivity.
  - simpl in Hpre.
    destruct (process_images fs source_file pre) as [r|e'] eqn:Hp.
    + rewrite (IH r eq_refl).
      destruct x as [s|]; [|reflexivity].
      destruct (is_empty s); [reflexivity|].
      destruct (resolve_image_path fs source_file s); [reflexivity | discriminate Hpre].
    + exfalso. destruct x as [s|]; [destruct (is_empty s)|]; simpl in Hpre; try discriminate.
      destruct (resolve_image_path fs source_file s); discriminate.
Qed.

Lemma read_source_invalid (fs : FS) (p : path) (e : exn) :
  read_source fs p = Raise e -> exists m, e = InvalidMarkdownError m.
Proof.
  unfold read_source. destruct (read_text fs p) as [c|[]]; intros He; inversion He; eauto.
Qed.

Lemma reraise_invalid_unit (prefix : str) (x : FS * res unit) :
  exists fs' r, reraise_invalid prefix x = (fs', r) /\
    (r = Ok tt \/ exists m, r = Raise (InvalidMarkdownError m) \/ r = Raise (ConversionError m)).
Proof.
  destruct x as [fs [[]|e]]; simpl.
  - exists fs, (Ok tt). auto.
  - destruct e; eexists; eexists; (split; [reflexivity|]); right; eauto.
Qed.

Lemma convert_file_outcome (css : str) (input_path output_path : path) (toc_enabled : bool)
    (metadata : option metadata) (title_page_enabled : bool) (fs : FS) :
  exists fs' r,
    convert_file css input_path output_path toc_enabled metadata title_page_enabled fs = (fs', r) /\
    (r = Ok tt \/ exists m, r = Raise (InvalidMarkdownError m) \/ r = Raise (ConversionError m)).
Proof.
  unfold convert_file. destruct (read_source fs input_path) as [c|e] eqn:Hr.
  - apply reraise_invalid_unit.
  - destruct (read_source_invalid _ _ _ Hr) as [m ->]. exists fs. eexists. split; [reflexivity|].
    right. eauto.
Qed.

Lemma convert_each_total (css : str) (files : list path) (input_dir output_dir : path)
    (preserve_structure toc_enabled : bool) (metadata : option metadata)
    (title_page_enabled : bool) (fs : FS) :
  (forall f, In f files -> exists o, get_output_path f input_dir output_dir preserve_structure = Ok o) ->
  exists fs' results,
    convert_each css files input_dir output_dir preserve_structure toc_enabled metadata
      title_page_enabled fs = (fs', Ok results) /\
    map r_input results = files /\ Forall result_shape results.
Proof.
  revert fs. induction files as [|f files IH]; intros fs Hout; simpl.
  - exists fs, []. auto.
  - destruct (Hout f (or_introl eq_refl)) as [o Ho]. rewrite Ho.
    destruct (convert_file_outcome css f o toc_enabled metadata title_page_enabled fs)
      as [fs1 [r [Hc Hr]]].
    rewrite Hc.
    destruct (IH fs1 (fun g Hg => Hout g (or_intror Hg))) as [fs2 [results [He [Hm Hf]]]].
    destruct Hr as [->|[m [->| ->]]]; simpl; rewrite He;
      eexists; eexists; (split; [reflexivity|]); simpl; rewrite Hm; (split; [reflexivity|]);
      constructor; auto; unfold result_shape; simpl; eauto.
Qed.

(** Each record of the loop is the outcome of [convert_file] on its file,
    run in the file system left by the files before it. *)
Lemma convert_each_records (css : str) (files : list path) (input_dir output_dir : path)
    (preserve_structure toc_enabled : bool) (metadata : option metadata)
    (title_page_enabled : bool) (fs fs' : FS) (results : list conversion_result) :
  convert_each css files input_dir output_dir preserve_structure toc_enabled metadata
    title_page_enabled fs = (fs', Ok results) ->
  forall i r, nth_error results i = Some r ->
  exists fs_i fs_i' out,
    convert_each css (firstn i files) input_dir output_dir preserve_structure toc_enabled
      metadata title_page_enabled fs = (fs_i, Ok (firstn i results)) /\
    get_output_path (r_input r) input_dir output_dir preserve_structure = Ok (r_output r) /\
    convert_file css (r_input r) (r_output r) toc_enabled metadata title_page_enabled fs_i
      = (fs_i', out) /\
    ((out = Ok tt /\ r_success r = true /\ r_error r = None) \/
     (exists m, (out = Raise (InvalidMarkdownError m) \/ out = Raise (ConversionError m)) /\
        r_success r = false /\ r_error r = Some m)).
Proof.
  revert fs fs' results. induction files as [|f files IH]; intros fs fs' results Heq i r Hr.
  - cbn in Heq. injection Heq as _ <-. destruct i; discriminate Hr.
  - cbn [convert_each] in Heq.
    destruct (get_output_path f input_dir output_dir preserve_structure) as [o|e] eqn:Ho;
      [|discriminate Heq].
    destruct (convert_file css f o toc_enabled metadata title_page_enabled fs) as [fs1 out] eqn:Hc.
    destruct (result_of f o out) as [c|e] eqn:Hro; [|discriminate Heq].
    destruct (convert_each css files input_dir output_dir preserve_structure toc_enabled
                metadata title_page_enabled fs1) as [fs2 [rs|e]] eqn:He; [|discriminate Heq].
    injection Heq as _ <-. destruct i as [|i].
    + injection Hr as <-. exists fs, fs1, out. split; [reflexivity|].
      destruct out as [[]|[m|m|m|m|m]]; cbn in Hro; try discriminate Hro;
        injection Hro as <-; cbn [r_input r_output r_success r_error];
        (split; [exact Ho|]); (split; [exact Hc|]);
        [left; auto | right; exists m; auto | right; exists m; auto].
    + cbn [nth_error] in Hr.
      destruct (IH fs1 fs2 rs He i r Hr) as [fs_i [fs_i' [out' [Hpre Hrest]]]].
      exists fs_i, fs_i', out'. split; [|exact Hrest].
      cbn [firstn convert_each]. rewrite Ho, Hc, Hro, Hpre. reflexivity.
Qed.

(** ** Claims on the composer and the batch converter *)

(** C7: [convert_merge] raises [InvalidMarkdownError] on an empty list.
    For a non-empty list whose files all read and convert, the bodies are
    the per-file conversions in the order of the list, and the HTML handed
    to the renderer is built from the first body followed by each further
    body with one page-break [div] before it: for [N] files, [N - 1]
    separators, none before the first body or after the last. *)
Theorem convert_merge_order (css : str) (output_path : path) (toc_enabled : bool)
    (metadata : option metadata) (title_page_enabled : bool) :
  (forall fs,
     convert_merge css [] output_path toc_enabled metadata title_page_enabled fs
     = (fs, Raise (InvalidMarkdownError (zs "No markdown files provided for merging")))) /\
  (forall fs first others bodies,
     convert_sources fs (first :: others) = Ok bodies ->
     Forall2 (fun p b => exists c, read_source fs p = Ok c /\ md_convert fs p c = Ok b)
       (first :: others) bodies /\
     exists b bs, bodies = b :: bs /\ List.length bs = List.length others /\
       let combined := b ++ List.concat (map (fun g => page_break ++ g) bs) in
       let pm := pdf_metadata_of metadata (stem output_path) in
       convert_merge css (first :: others) output_path toc_enabled metadata title_page_enabled fs
       = reraise_invalid (zs "Error merging files to PDF: ")
           (render_and_write fs
              (html_document (pm_title pm) css
                 (add_title_page title_page_enabled pm (add_toc toc_enabled combined)))
              (fold_left merge_base_step others (parent first)) output_path pm)).
Proof.
  split; [intros fs; reflexivity|].
  intros fs first others bodies Hs.
  pose proof (convert_sources_spec fs _ _ Hs) as Hf.
  split; [exact Hf|].
  destruct bodies as [|b bs]; [inversion Hf|].
  exists b, bs. split; [reflexivity|].
  split; [apply Forall2_length in Hf; simpl in Hf; lia|].
  unfold convert_merge. rewrite Hs. rewrite join_cons_concat. reflexivity.
Qed.

(** C8: a relative image reference is resolved against the directory of
    the source file, an absolute one is taken as it is; when the target
    does not exist, [convert_file] raises [InvalidMarkdownError] with the
    reference and the source path, unwrapped, at the first such image. *)
Theorem convert_file_missing_image (css : str) (input_path output_path : path)
    (toc_enabled : bool) (metadata : option metadata) (title_page_enabled : bool)
    (fs : FS) (content : str) (pre : list (option str)) (ref : str)
    (post pre' : list (option str)) :
  read_text fs input_path = Ok content ->
  md_images content = pre ++ Some ref :: post ->
  process_images fs input_path pre = Ok pre' ->
  ref <> [] ->
  path_exists fs (if is_absolute (path_of_str ref) then path_of_str ref
                  else resolve fs (path_div (parent input_path) ref)) = false ->
  convert_file css input_path output_path toc_enabled metadata title_page_enabled fs
  = (fs, Raise (InvalidMarkdownError (zs "Image not found: " ++ ref ++ zs " (referenced in "
                                      ++ path_str input_path ++ zs ")"))).
Proof.
  intros Hread Himg Hpre Hne Hmiss.
  assert (Hres : resolve_image_path fs input_path ref
                 = Raise (InvalidMarkdownError (zs "Image not found: " ++ ref ++ zs " (referenced in "
                                                ++ path_str input_path ++ zs ")")))
    by (unfold resolve_image_path; rewrite Hmiss; reflexivity).
  unfold convert_file, read_source. rewrite Hread.
  unfold md_convert. rewrite Himg.
  rewrite (process_images_first_failure fs input_path pre post pre' ref _ Hpre Hne Hres).
  reflexivity.
Qed.

(** C9: when every discovered file lies under [input_dir] (or the tree
    is flattened), [convert_directory] never raises: it returns one record
    per file of [find_markdown_files], in that order, which is the
    discovered files sorted by their path parts compared lexicographically;
    each record is a success without error or a failure with its message.
    The [i]-th record is the outcome of [convert_file] on its file, run
    after the [i] files before it: a success when that call returned, and
    a failure carrying the message when it raised [InvalidMarkdownError]
    or [ConversionError]; the files after it are still converted. *)
Theorem convert_directory_batch (css : str) (input_dir output_dir : path)
    (preserve_structure toc_enabled : bool) (metadata : option metadata)
    (title_page_enabled : bool) (fs : FS)
    (Hrel : preserve_structure = true ->
            forall f, In f (rglob_md fs input_dir) -> relative_to f input_dir <> None) :
  Permutation (find_markdown_files fs input_dir) (rglob_md fs input_dir) /\
  Sorted path_le (find_markdown_files fs input_dir) /\
  exists fs' results,
    convert_directory css input_dir output_dir preserve_structure toc_enabled metadata
      title_page_enabled fs = (fs', Ok results) /\
    map r_input results = find_markdown_files fs input_dir /\
    Forall result_shape results /\
    forall i r, nth_error results i = Some r ->
    exists fs_i fs_i' out,
      convert_each css (firstn i (find_markdown_files fs input_dir)) input_dir output_dir
        preserve_structure toc_enabled metadata title_page_enabled fs = (fs_i, Ok (firstn i results)) /\
      get_output_path (r_input r) input_dir output_dir preserve_structure = Ok (r_output r) /\
      convert_file css (r_input r) (r_output r) toc_enabled metadata title_page_enabled fs_i
        = (fs_i', out) /\
      ((out = Ok tt /\ r_success r = true /\ r_error r = None) \/
       (exists m, (out = Raise (InvalidMarkdownError m) \/ out = Raise (ConversionError m)) /\
          r_success r = false /\ r_error r = Some m)).
Proof.
  destruct (sort_paths_spec (rglob_md fs input_dir)) as [Hs Hp].
  split; [exact Hp|]. split; [exact Hs|].
  cut (exists fs' results,
         convert_each css (find_markdown_files fs input_dir) input_dir output_dir
           preserve_structure toc_enabled metadata title_page_enabled fs = (fs', Ok results) /\
         map r_input results = find_markdown_files fs input_dir /\ Forall result_shape results).
  { intros [fs' [results [He [Hm Hf]]]]. exists fs', results.
    split; [exact He|]. split; [exact Hm|]. split; [exact Hf|].
    exact (convert_each_records css _ input_dir output_dir preserve_structure toc_enabled
             metadata title_page_enabled fs fs' results He). }
  apply convert_each_total.
  intros f Hf. unfold get_output_path.
  destruct preserve_structure; [|eauto].
  apply (Permutation_in _ Hp) in Hf.
  destruct (relative_to f input_dir) eqn:Hr; [eauto|].
  exfalso. exact (Hrel eq_refl f Hf Hr).
Qed.

End ComposerProofs.

Lemma convert_merge_order_witness :
  Forall2 (fun p b => exists c, @read_source mem_platform
                                  [([zs "d"; zs "a.md"], zs "A"); ([zs "d"; zs "b.md"], zs "B")] p = Ok c /\
                                @md_convert mem_platform
                                  [([zs "d"; zs "a.md"], zs "A"); ([zs "d"; zs "b.md"], zs "B")] p c = Ok b)
    [[zs "d"; zs "a.md"]; [zs "d"; zs "b.md"]] [zs "A"; zs "B"].
Proof.
  apply (proj2 (@convert_merge_order mem_platform [] [zs "out.pdf"] true None false)
           [([zs "d"; zs "a.md"], zs "A"); ([zs "d"; zs "b.md"], zs "B")]
           [zs "d"; zs "a.md"] [[zs "d"; zs "b.md"]] [zs "A"; zs "B"]).
  vm_compute. reflexivity.
Defined.

Lemma convert_file_missing_image_witness :
  @convert_file mem_platform [] [zs "d"; zs "a.md"] [zs "out"; zs "a.pdf"] false None false
    [([zs "d"; zs "a.md"], zs "!img.png")]
  = ([([zs "d"; zs "a.md"], zs "!img.png")],
     Raise (InvalidMarkdownError (zs "Image not found: img.png (referenced in d/a.md)"))).
Proof.
  apply (@convert_file_missing_image mem_platform [] [zs "d"; zs "a.md"] [zs "out"; zs "a.pdf"]
           false None false [([zs "d"; zs "a.md"], zs "!img.png")] (zs "!img.png") []
           (zs "img.png") [] []);
    vm_compute; first [reflexivity | discriminate].
Defined.

Lemma convert_directory_batch_witness :
  exists fs' results,
    @convert_directory mem_platform [] [zs "d"] [zs "out"] true false None false
      [([zs "d"; zs "b.md"], zs "B"); ([zs "d"; zs "a.md"], zs "!img.png")] = (fs', Ok results) /\
    map r_input results = [[zs "d"; zs "a.md"]; [zs "d"; zs "b.md"]].
Proof.
  destruct (@convert_directory_batch mem_platform [] [zs "d"] [zs "out"] true false None false
              [([zs "d"; zs "b.md"], zs "B"); ([zs "d"; zs "a.md"], zs "!img.png")])
    as [_ [_ [fs' [results [He [Hm _]]]]]].
  - intros _ f Hf. vm_compute in Hf. destruct Hf as [<-|[<-|[]]]; vm_compute; discriminate.
  - exists fs', results. split; [exact He|]. rewrite Hm. vm_compute. reflexivity.
Defined.

(** ** Further properties: page-number CSS *)

Lemma flat_map_flat_map {A B C : Type} (f : A -> list B) (g : B -> list C) (l : list A) :
  flat_map g (flat_map f l) = flat_map (fun x => flat_map g (f x)) l.
Proof. induction l as [|x l IH]; simpl; [reflexivity|]. rewrite flat_map_app, IH. reflexivity. Qed.

Lemma escape_css_string_chars (t : str) : escape_css_string t = flat_map esc1 t.
Proof.
  unfold escape_css_string, replace_char. rewrite !flat_map_flat_map.
  apply flat_map_ext. intros c. unfold esc1.
  destruct (Z.eqb_spec c 92); [subst; reflexivity|].
  destruct (Z.eqb_spec c 34); [subst; reflexivity|].
  destruct (Z.eqb_spec c 10); [subst; reflexivity|].
  apply Z.eqb_neq in n, n0, n1.
  do 4 (simpl; rewrite ?n, ?n0, ?n1). reflexivity.
Qed.

Lemma css_body_esc1 (c : Z) (tail : str) (f : nat) :
  c <> 12 -> c <> 13 ->
  css_string_body (S f) (css_preprocess (esc1 c ++ tail))
  = cons_value (css_char_value c) (css_string_body f (css_preprocess tail)).
Proof.
  intros H12 H13. unfold esc1.
  destruct (Z.eqb_spec c 92); [subst; reflexivity|].
  destruct (Z.eqb_spec c 34); [subst; reflexivity|].
  destruct (Z.eqb_spec c 10); [subst; reflexivity|].
  simpl. apply Z.eqb_neq in H12, H13. rewrite H12, H13.
  unfold css_char_value. apply Z.eqb_neq in n1. rewrite n1.
  destruct ((c =? 0) || is_surrogate c); simpl; [reflexivity|].
  apply Z.eqb_neq in n, n0. rewrite n0, n1, n. reflexivity.
Qed.

Lemma esc1_length (t : str) : (List.length t <= List.length (flat_map esc1 t))%nat.
Proof.
  induction t as [|c t IH]; simpl; [lia|]. rewrite length_app.
  assert (1 <= List.length (esc1 c))%nat
    by (unfold esc1; destruct (c =? 92), (c =? 34), (c =? 10); simpl; lia).
  lia.
Qed.

Lemma css_body_escaped (t rest : str) (f : nat) :
  ~ In 12 t -> ~ In 13 t -> (List.length t < f)%nat ->
  css_string_body f (css_preprocess (flat_map esc1 t ++ 34 :: rest))
  = Some (map css_char_value t, css_preprocess rest).
Proof.
  revert f. induction t as [|c t IH]; intros f H12 H13 Hf.
  - destruct f as [|f]; [simpl in Hf; lia|]. reflexivity.
  - destruct f as [|f]; [simpl in Hf; lia|]. simpl flat_map. rewrite <- app_assoc.
    rewrite css_body_esc1 by (intros ->; simpl in *; tauto).
    rewrite IH by (simpl in *; auto; lia). reflexivity.
Qed.

Lemma prefixb_spec (p s : str) : prefixb p s = true -> s = p ++ skipn (List.length p) s.
Proof.
  revert s. induction p as [|x p IH]; intros [|y s] H; simpl in *; try discriminate; [reflexivity|reflexivity|].
  apply andb_prop in H. destruct H as [Hxy H]. apply Z.eqb_eq in Hxy. subst.
  f_equal. apply IH. exact H.
Qed.

Lemma prefixb_app (p s x : str) : prefixb p s = true -> prefixb p (s ++ x) = true.
Proof.
  revert s. induction p as [|a p IH]; intros [|y s] H; simpl in *; try discriminate; [reflexivity|reflexivity|].
  apply andb_prop in H. destruct H as [-> H]. apply IH. exact H.
Qed.

Lemma prefixb_refl (p s : str) : prefixb p (p ++ s) = true.
Proof. induction p as [|a p IH]; simpl; [reflexivity|]. rewrite Z.eqb_refl. exact IH. Qed.

Lemma split_once_some (sep s b a : str) :
  split_once sep s = Some (b, a) -> s = b ++ sep ++ a.
Proof.
  revert b a. induction s as [|c s IH]; intros b a H; simpl in H.
  - destruct (prefixb sep []) eqn:Hp; [|discriminate]. inversion H; subst.
    destruct sep; [reflexivity | discriminate].
  - destruct (prefixb sep (c :: s)) eqn:Hp.
    + inversion H; subst. apply prefixb_spec. exact Hp.
    + destruct (split_once sep s) as [[b' a']|]; [|discriminate].
      inversion H; subst. simpl. f_equal. apply IH. reflexivity.
Qed.

Lemma split_once_prefix (sep s : str) : prefixb sep s = true -> split_once sep s <> None.
Proof. intros H. destruct s; simpl; rewrite H; discriminate. Qed.

Lemma split_once_found (sep b c : str) : split_once sep (b ++ sep ++ c) <> None.
Proof.
  induction b as [|x b IH].
  - rewrite app_nil_l. apply split_once_prefix. apply prefixb_refl.
  - simpl. destruct (prefixb sep (x :: b ++ sep ++ c)); [discriminate|].
    destruct (split_once sep (b ++ sep ++ c)) as [[]|]; [discriminate | contradiction].
Qed.

Lemma split_once_none_app (sep x y : str) :
  split_once sep (x ++ y) = None -> split_once sep x = None.
Proof.
  intros H. destruct (split_once sep x) as [[b a]|] eqn:Hx; [|reflexivity].
  apply split_once_some in Hx. subst x. rewrite <- !app_assoc in H.
  exfalso. exact (split_once_found sep b (a ++ y) H).
Qed.

Lemma split_once_first (sep s b a : str) :
  sep <> [] -> split_once sep s = Some (b, a) -> split_once sep b = None.
Proof.
  intros Hne. revert b a. induction s as [|c s IH]; intros b a H; simpl in H.
  - destruct (prefixb sep []) eqn:Hp; [|discriminate]. inversion H; subst.
    destruct sep; [contradiction | discriminate].
  - destruct (prefixb sep (c :: s)) eqn:Hp.
    + inversion H; subst. simpl. destruct sep; [contradiction | reflexivity].
    + destruct (split_once sep s) as [[b' a']|] eqn:Hs; [|discriminate].
      inversion H; subst. simpl.
      pose proof (split_once_some _ _ _ _ Hs) as Hsa. subst s.
      destruct (prefixb sep (c :: b')) eqn:Hp'.
      * exfalso. apply (prefixb_app _ _ (sep ++ a)) in Hp'. simpl in Hp'. congruence.
      * rewrite (IH b' a eq_refl). reflexivity.
Qed.

Lemma page_parts_segments_gen (f : nat) (r : str) :
  (List.length r < f)%nat ->
  exists segs, page_parts f r = map seg_token segs /\
    List.concat (map seg_source segs) = r /\ lits_ok segs.
Proof.
  revert r. induction f as [|f IH]; intros r Hf; [lia|].
  simpl. destruct (is_empty r) eqn:He.
  { exists []. destruct r; [simpl; auto | discriminate]. }
  destruct (split_once page_placeholder r) as [[b a]|] eqn:Hpg.
  - pose proof (split_once_some _ _ _ _ Hpg) as Heq.
    assert (Hlen : (List.length a < f)%nat)
      by (apply (f_equal (@List.length Z)) in Heq;
          rewrite !length_app in Heq; simpl in Heq; lia).
    destruct (IH a Hlen) as [segs [Hp [Hc Hl]]].
    assert (Hfirst : split_once page_placeholder b = None)
      by (apply (split_once_first _ r _ a); [discriminate | exact Hpg]).
    destruct b as [|x b'].
    + exists (PageNo :: segs). simpl. rewrite Hp, Hc. rewrite Heq. auto.
    + exists (Lit (x :: b') :: PageNo :: segs). simpl. rewrite Hp. simpl in Hc.
      split; [reflexivity|]. split; [rewrite Hc, Heq; reflexivity|].
      split; [discriminate|]. split; [exact Hfirst|]. split; [intros _; eauto | exact Hl].
  - destruct (split_once pages_placeholder r) as [[b a]|] eqn:Hpgs.
    + pose proof (split_once_some _ _ _ _ Hpgs) as Heq.
      assert (Hlen : (List.length a < f)%nat)
        by (apply (f_equal (@List.length Z)) in Heq;
            rewrite !length_app in Heq; simpl in Heq; lia).
      destruct (IH a Hlen) as [segs [Hp [Hc Hl]]].
      assert (Hfirst : split_once pages_placeholder b = None)
        by (apply (split_once_first _ r _ a); [discriminate | exact Hpgs]).
      assert (Hno : split_once page_placeholder b = None)
        by (rewrite Heq in Hpg; exact (split_once_none_app _ _ _ Hpg)).
      destruct b as [|x b'].
      * exists (PagesNo :: segs). simpl. rewrite Hp, Hc. rewrite Heq. auto.
      * exists (Lit (x :: b') :: PagesNo :: segs). simpl. rewrite Hp. simpl in Hc.
        split; [reflexivity|]. split; [rewrite Hc, Heq; reflexivity|].
        split; [discriminate|]. split; [exact Hno|]. split; [|exact Hl].
        intros Hc'. exfalso. apply Hc'. simpl in Hfirst. exact Hfirst.
    + exists [Lit r]. simpl. rewrite app_nil_r. split; [reflexivity|]. split; [reflexivity|].
      split; [intros ->; discriminate He|]. split; [exact Hpg|]. split; [|exact I].
      intros Hc'. rewrite Hpgs in Hc'. contradiction.
Qed.

(** X1: the string token [get_page_number_css] writes for a piece of
    literal text [t] without CR or FF ends at its own closing quote, so
    the text after it is read as the next tokens, and CSS reads its value
    as [t] except that each newline reads as the letter [n] (CSS has no
    [\n] escape) and NULL or a surrogate reads as U+FFFD. *)
Theorem css_string_token_closed (t rest : str) :
  ~ In 12 t -> ~ In 13 t ->
  css_string_token t = dq ++ escape_css_string t ++ dq /\
  css_read_string (escape_css_string t ++ dq ++ rest) = Some (map css_char_value t, css_preprocess rest).
Proof.
  intros H12 H13. split; [reflexivity|].
  unfold css_read_string. rewrite escape_css_string_chars.
  apply css_body_escaped; [exact H12 | exact H13|].
  rewrite length_app. pose proof (esc1_length t). lia.
Qed.

Lemma css_string_token_closed_witness :
  css_string_token (zs "Pg \ " ++ dq ++ nl) = dq ++ escape_css_string (zs "Pg \ " ++ dq ++ nl) ++ dq /\
  css_read_string (escape_css_string (zs "Pg \ " ++ dq ++ nl) ++ dq ++ zs " counter(page)")
  = Some (map css_char_value (zs "Pg \ " ++ dq ++ nl), css_preprocess (zs " counter(page)")).
Proof. apply css_string_token_closed; vm_compute; intuition discriminate. Defined.

(** X2: when page numbers are enabled and the position is valid, the
    content of [get_page_number_css] is the space-separated tokens of a
    list of pieces: literal strings, [counter(page)] and [counter(pages)].
    Putting the pieces back ([{page}], [{pages}] and the literal text)
    gives the whole format, so nothing of it is lost; no literal piece is
    empty or has a [{page}], and a literal piece that still has a
    [{pages}] is followed by a page counter. *)
Theorem get_page_number_css_pieces (config : page_config) (css : str) :
  enable_page_numbers config = true ->
  get_page_number_css config = Ok css ->
  exists margin_box segs,
    margin_box_of (page_number_position config) = Some margin_box /\
    css = page_number_block margin_box (join (zs " ") (map seg_token segs)) /\
    List.concat (map seg_source segs) = page_number_format config /\
    lits_ok segs.
Proof.
  intros Hen Hcss.
  destruct (page_parts_segments_gen (S (List.length (page_number_format config)))
              (page_number_format config) (Nat.lt_succ_diag_r _)) as [segs [Hp [Hc Hl]]].
  unfold get_page_number_css in Hcss. cbv zeta in Hcss. rewrite Hp, Hen in Hcss.
  destruct (margin_box_of (page_number_position config)) as [box|]; [|discriminate].
  exists box, segs. injection Hcss as <-. auto.
Qed.

Lemma get_page_number_css_pieces_witness :
  exists margin_box segs,
    margin_box_of (zs "right") = Some margin_box /\
    page_number_block (zs "@bottom-right")
      (zs "counter(page) " ++ dq ++ zs " / " ++ dq ++ zs " counter(pages)")
    = page_number_block margin_box (join (zs " ") (map seg_token segs)) /\
    List.concat (map seg_source segs) = zs "{page} / {pages}" /\ lits_ok segs.
Proof.
  apply (get_page_number_css_pieces
           {| enable_page_numbers := true; page_number_position := zs "right";
              page_number_format := zs "{page} / {pages}" |}); vm_compute; reflexivity.
Defined.

(** ** Further properties: configuration and the CLI *)

Lemma config_load_cases (lower : str -> str) (env : str -> option str) :
  let p := getenv env (zs "PAGE_NUMBER_POSITION") (zs "center") in
  (In p valid_positions /\
   exists c, config_load lower (Ok env) = Ok c /\
     Config.page_number_position c = p /\
     Config.page_number_format c =
       firstn 100 (getenv env (zs "PAGE_NUMBER_FORMAT") (zs "Page {page} of {pages}")) /\
     Config.pdf_title c = getenv_or_none env (zs "PDF_TITLE") /\
     Config.pdf_author c = getenv_or_none env (zs "PDF_AUTHOR") /\
     Config.pdf_subject c = getenv_or_none env (zs "PDF_SUBJECT") /\
     Config.pdf_keywords c = getenv_or_none env (zs "PDF_KEYWORDS")) \/
  (~ In p valid_positions /\
   config_load lower (Ok env) =
     Raise (ValueError (zs "PAGE_NUMBER_POSITION must be one of: left, center, right. Got: "
                        ++ p))).
Proof.
  intros p. unfold config_load. fold p.
  destruct (mem p valid_positions) eqn:Hm.
  - left. split; [apply mem_In; exact Hm|].
    eexists. split; [reflexivity|]. cbn -[firstn Nat.ltb List.length getenv getenv_or_none zs].
    repeat split; try reflexivity.
    set (f := getenv env (zs "PAGE_NUMBER_FORMAT") (zs "Page {page} of {pages}")).
    destruct (100 <? List.length f)%nat eqn:Hl; [reflexivity|].
    apply Nat.ltb_ge in Hl. symmetry. apply firstn_all2. exact Hl.
  - right. split; [apply mem_false; exact Hm|]. reflexivity.
Qed.

Lemma getenv_or_none_not_empty (env : str -> option str) (key : str) :
  getenv_or_none env key <> Some [].
Proof.
  unfold getenv_or_none. destruct (env key) as [[|c v]|]; simpl; congruence.
Qed.

Lemma get_page_css_total (config : Config.t) :
  In (Config.page_number_position config) valid_positions ->
  exists css, get_page_css config = Ok css.
Proof.
  intros Hin. unfold get_page_css, get_page_number_css, page_config_of. simpl.
  destruct (Config.enable_page_numbers config); simpl; [|eexists; reflexivity].
  unfold valid_positions in Hin.
  destruct Hin as [<-|[<-|[<-|[]]]]; eexists; reflexivity.
Qed.

Lemma skipn_length_app (p u : str) : skipn (List.length p) (p ++ u) = u.
Proof. induction p as [|c p IH]; simpl; [reflexivity|exact IH]. Qed.

Lemma endswith_spec (s suffix : str) :
  endswith s suffix = true <-> exists p, s = p ++ suffix.
Proof.
  unfold endswith. rewrite andb_true_iff, Nat.leb_le, str_eqb_true. split.
  - intros [Hle Hs]. exists (firstn (List.length s - List.length suffix) s).
    rewrite <- Hs at 2. symmetry. apply firstn_skipn.
  - intros [p ->]. rewrite length_app. split; [lia|].
    replace (List.length p + List.length suffix - List.length suffix)%nat
      with (List.length p) by lia.
    apply skipn_length_app.
Qed.

Lemma check_margins_ok (margins : list (str * str)) :
  check_margins margins = Ok tt <->
  Forall (fun m => existsb (endswith (snd m)) margin_units = true) margins.
Proof.
  induction margins as [|[name value] rest IH]; cbn [check_margins].
  - split; [constructor|reflexivity].
  - destruct (existsb (endswith value) margin_units) eqn:He; cbn [negb].
    + rewrite IH. split; [intros H; constructor; assumption|intros H; inversion H; assumption].
    + split; [discriminate|intros H; inversion H; cbn [snd] in *; congruence].
Qed.

(** [Config.load] raises exactly when its [load_dotenv()] call raises,
    with that exception, or when [PAGE_NUMBER_POSITION] (default
    [center]) in the environment [load_dotenv()] leaves is not one of
    [left], [center], [right], and then with a [ValueError] that quotes
    the value. *)
Theorem config_load_position_error (lower : str -> str)
    (load_dotenv : res (str -> option str)) (e : exn) :
  config_load lower load_dotenv = Raise e <->
  load_dotenv = Raise e \/
  exists env, load_dotenv = Ok env /\
    ~ In (getenv env (zs "PAGE_NUMBER_POSITION") (zs "center")) valid_positions /\
    e = ValueError (zs "PAGE_NUMBER_POSITION must be one of: left, center, right. Got: "
                    ++ getenv env (zs "PAGE_NUMBER_POSITION") (zs "center")).
Proof.
  destruct load_dotenv as [env|e0].
  - destruct (config_load_cases lower env) as [[Hin [c [Hc _]]]|[Hn Hr]].
    + rewrite Hc. split; [discriminate|].
      intros [H|[env' [Henv [Hn _]]]]; [discriminate H|].
      injection Henv as <-. contradiction.
    + rewrite Hr. split.
      * intros H. injection H as <-. right. exists env. auto.
      * intros [H|[env' [Henv [_ ->]]]]; [discriminate H|]. injection Henv as <-. reflexivity.
  - cbn [config_load]. split.
    + intros H. injection H as ->. left. reflexivity.
    + intros [H|[env' [H _]]]; [injection H as ->; reflexivity|discriminate H].
Qed.

(** A configuration loaded by [Config.load] has a page-number format
    that is the first 100 characters of [PAGE_NUMBER_FORMAT] (or of the
    default), so at most 100 long, and none of its four PDF metadata
    fields is the empty string; it is read from the environment that its
    [load_dotenv()] call left. *)
Theorem config_load_fields (lower : str -> str) (load_dotenv : res (str -> option str))
    (c : Config.t) :
  config_load lower load_dotenv = Ok c ->
  exists env, load_dotenv = Ok env /\
  Config.page_number_format c =
    firstn 100 (getenv env (zs "PAGE_NUMBER_FORMAT") (zs "Page {page} of {pages}")) /\
  (List.length (Config.page_number_format c) <= 100)%nat /\
  Forall (fun o => o <> Some [])
    [Config.pdf_title c; Config.pdf_author c; Config.pdf_subject c; Config.pdf_keywords c].
Proof.
  intros Hload. destruct load_dotenv as [env|e]; [|discriminate Hload].
  exists env. split; [reflexivity|].
  destruct (config_load_cases lower env) as [[_ [c' [Hc [_ [Hf [Ht [Ha [Hs Hk]]]]]]]]|[_ Hr]];
    [|congruence].
  rewrite Hload in Hc. injection Hc as <-.
  split; [exact Hf|]. split.
  - rewrite Hf, length_firstn. lia.
  - rewrite Ht, Ha, Hs, Hk. repeat constructor; apply getenv_or_none_not_empty.
Qed.

Lemma config_load_fields_witness :
  let env := fun k : str =>
    if str_eqb k (zs "PAGE_NUMBER_FORMAT") then Some (repeat 65 120)
    else if str_eqb k (zs "PDF_TITLE") then Some [] else None in
  exists c, config_load ascii_lower (Ok env) = Ok c /\
  exists env', Ok env = Ok env' /\
  Config.page_number_format c =
    firstn 100 (getenv env' (zs "PAGE_NUMBER_FORMAT") (zs "Page {page} of {pages}")) /\
  (List.length (Config.page_number_format c) <= 100)%nat /\
  Forall (fun o => o <> Some [])
    [Config.pdf_title c; Config.pdf_author c; Config.pdf_subject c; Config.pdf_keywords c].
Proof.
  intros env. eexists. split; [reflexivity|].
  apply (config_load_fields ascii_lower (Ok env)). reflexivity.
Defined.

(** After [cli.main]'s configuration step succeeds (load, validate, then
    any [--page-numbers] override), [get_page_css] on the resulting
    configuration never raises: the position it looks up was checked by
    [Config.load], and the override only changes [enable_page_numbers]. *)
Theorem cli_config_page_css (lower : str -> str) (load_dotenv : res (str -> option str))
    (page_numbers : option bool) (config : Config.t) :
  cli_config lower load_dotenv page_numbers = Ok config ->
  exists css, get_page_css config = Ok css.
Proof.
  unfold cli_config. intros Hcli.
  destruct load_dotenv as [env|e]; [|discriminate Hcli].
  destruct (config_load_cases lower env) as [[Hin [c [Hc [Hp _]]]]|[_ Hr]];
    [|rewrite Hr in Hcli; discriminate].
  rewrite Hc in Hcli.
  destruct (config_validate c) as [_|e]; [|discriminate].
  injection Hcli as <-. apply get_page_css_total.
  destruct page_numbers as [b|]; simpl; rewrite Hp; exact Hin.
Qed.

Lemma cli_config_page_css_witness :
  let env := fun k : str =>
    if str_eqb k (zs "PAGE_NUMBER_POSITION") then Some (zs "left")
    else if str_eqb k (zs "PDF_PAGE_SIZE") then Some (zs "Letter") else None in
  exists config, cli_config ascii_lower (Ok env) (Some true) = Ok config /\
  exists css, get_page_css config = Ok css.
Proof.
  intros env. eexists. split; [vm_compute; reflexivity|].
  apply (cli_config_page_css ascii_lower (Ok env) (Some true)). vm_compute. reflexivity.
Defined.

(** [Config.validate] passes exactly when the page size is one of [A4],
    [A3], [A5], [Letter], [Legal] and each of the four margins is some
    text followed by one of the units [cm], [mm], [in], [pt], [px]. *)
Theorem config_validate_ok (c : Config.t) :
  config_validate c = Ok tt <->
  In (Config.page_size c) valid_page_sizes /\
  Forall (fun m => exists unit number, In unit margin_units /\ m = number ++ unit)
    [Config.margin_top c; Config.margin_bottom c; Config.margin_left c; Config.margin_right c].
Proof.
  unfold config_validate. rewrite <- mem_In.
  destruct (mem (Config.page_size c) valid_page_sizes); cbn [negb].
  - rewrite check_margins_ok. unfold config_margins.
    rewrite !Forall_cons_iff. cbn [snd].
    assert (Hu : forall m, existsb (endswith m) margin_units = true <->
                      exists unit number, In unit margin_units /\ m = number ++ unit).
    { intros m. rewrite existsb_exists. split.
      - intros [u [Hu He]]. apply endswith_spec in He as [p Hp]. exists u, p. auto.
      - intros [u [p [Hu ->]]]. exists u. split; [exact Hu|]. apply endswith_spec.
        exists p. reflexivity. }
    rewrite !Hu. split; intros H; intuition (auto using Forall_nil).
  - split; [discriminate|intros [H _]; discriminate].
Qed.

Section FilterCount.
Context {A : Type} (f : A -> bool).

Lemma filter_length_le (l : list A) : (List.length (filter f l) <= List.length l)%nat.
Proof. induction l as [|x l IH]; simpl; [lia|]. destruct (f x); simpl; lia. Qed.

Lemma filter_length_all (l : list A) :
  List.length (filter f l) = List.length l <-> Forall (fun x => f x = true) l.
Proof.
  induction l as [|x l IH]; simpl; [split; auto|].
  rewrite Forall_cons_iff. pose proof (filter_length_le l).
  destruct (f x); simpl; rewrite <- IH; split; intuition (discriminate || lia).
Qed.

Lemma filter_length_none (l : list A) :
  List.length (filter f l) = 0%nat <-> Forall (fun x => f x = false) l.
Proof.
  induction l as [|x l IH]; simpl; [split; auto|].
  rewrite Forall_cons_iff, <- IH.
  destruct (f x); simpl; split; intuition (discriminate || lia).
Qed.

Lemma filter_length_some (l : list A) :
  (exists x, In x l /\ f x = true) <-> List.length (filter f l) <> 0%nat.
Proof.
  split.
  - intros [x [Hin Hx]] H0. apply length_zero_iff_nil in H0.
    assert (Hf : In x (filter f l)) by (apply filter_In; auto).
    rewrite H0 in Hf. destruct Hf.
  - destruct (filter f l) as [|x rest] eqn:Hf; simpl; [lia|]. intros _.
    exists x. apply filter_In. rewrite Hf. left. reflexivity.
Qed.

Lemma filter_length_missing (l : list A) :
  (exists x, In x l /\ f x = false) <-> List.length (filter f l) <> List.length l.
Proof.
  induction l as [|x l IH]; simpl.
  - split; [intros [y [[] _]]|lia].
  - pose proof (filter_length_le l). destruct (f x) eqn:Hx; simpl.
    + split.
      * intros [y [[<-|Hin] Hy]]; [congruence|]. intros He. apply IH; [|lia].
        exists y. auto.
      * intros Hne. destruct IH as [_ IH2]. destruct IH2 as [y [Hin Hy]]; [lia|].
        exists y. auto.
    + split; [intros _; lia|intros _; exists x; auto].
Qed.
End FilterCount.

(** The exit status of [cli.main] in directory mode: 0 when no file was
    found or every conversion succeeded, 2 when there were files and none
    succeeded, 1 when some succeeded and some failed. *)
Theorem directory_exit_code_cases {P : platform} (results : list conversion_result) :
  (directory_exit_code results = 0 <-> Forall (fun r => r_success r = true) results) /\
  (directory_exit_code results = 2 <->
     results <> [] /\ Forall (fun r => r_success r = false) results) /\
  (directory_exit_code results = 1 <->
     (exists r, In r results /\ r_success r = true) /\
     (exists r, In r results /\ r_success r = false)).
Proof.
  destruct results as [|r0 rs0] eqn:Hr.
  - simpl. split; [split; auto|]. split; split; try discriminate.
    + intros [H _]. congruence.
    + intros [[r [[] _]] _].
  - rewrite <- Hr.
    assert (Hne : results <> []) by (rewrite Hr; discriminate).
    assert (Hd : directory_exit_code results =
              let success_count := List.length (filter r_success results) in
              let failure_count := (List.length results - success_count)%nat in
              if (failure_count =? 0)%nat then 0
              else if (success_count =? 0)%nat then 2 else 1)
      by (rewrite Hr; reflexivity).
    rewrite Hd. cbv zeta. clear Hd.
    pose proof (filter_length_le r_success results) as Hlen.
    rewrite <- filter_length_all, <- filter_length_none, filter_length_some,
      filter_length_missing.
    assert (Hpos : (0 < List.length results)%nat) by (rewrite Hr; simpl; lia).
    destruct (Nat.eqb_spec (List.length results - List.length (filter r_success results)) 0);
    destruct (Nat.eqb_spec (List.length (filter r_success results)) 0);
    repeat split; intros; try lia; try discriminate; tauto.
Qed.

(** ** Further properties: HTML escaping and headings *)

Lemma html_escape_chars (s : str) : html_escape s = flat_map html_esc1 s.
Proof.
  unfold html_escape, replace_char. rewrite !flat_map_flat_map.
  apply flat_map_ext. intros c. unfold html_esc1.
  destruct (Z.eqb_spec c 38); [subst; reflexivity|].
  destruct (Z.eqb_spec c 60); [subst; reflexivity|].
  destruct (Z.eqb_spec c 62); [subst; reflexivity|].
  destruct (Z.eqb_spec c 34); [subst; reflexivity|].
  destruct (Z.eqb_spec c 39); [subst; reflexivity|].
  apply Z.eqb_neq in n, n0, n1, n2, n3.
  do 6 (simpl; rewrite ?n, ?n0, ?n1, ?n2, ?n3). reflexivity.
Qed.

Lemma read_escape_refs_esc (s : str) (fuel : nat) :
  (List.length s <= fuel)%nat -> read_escape_refs fuel (flat_map html_esc1 s) = s.
Proof.
  revert fuel. induction s as [|c s IH]; intros fuel Hf; [destruct fuel; reflexivity|].
  destruct fuel as [|fuel]; [simpl in Hf; lia|].
  assert (IH' : read_escape_refs fuel (flat_map html_esc1 s) = s) by (apply IH; simpl in Hf; lia).
  simpl flat_map. remember (flat_map html_esc1 s) as rest. clear Heqrest. unfold html_esc1.
  destruct (Z.eqb_spec c 38); [subst c; simpl; rewrite IH'; reflexivity|].
  destruct (Z.eqb_spec c 60); [subst c; simpl; rewrite IH'; reflexivity|].
  destruct (Z.eqb_spec c 62); [subst c; simpl; rewrite IH'; reflexivity|].
  destruct (Z.eqb_spec c 34); [subst c; simpl; rewrite IH'; reflexivity|].
  destruct (Z.eqb_spec c 39); [subst c; simpl; rewrite IH'; reflexivity|].
  assert (Hc : (38 =? c) = false) by (apply Z.eqb_neq; congruence).
  cbn [app read_escape_refs]. unfold escape_refs. cbv [find fst].
  change (zs "&amp;") with (38 :: zs "amp;"). change (zs "&lt;") with (38 :: zs "lt;").
  change (zs "&gt;") with (38 :: zs "gt;"). change (zs "&quot;") with (38 :: zs "quot;").
  change (zs "&#x27;") with (38 :: zs "#x27;").
  cbn [prefixb]. rewrite Hc. cbn [andb]. rewrite IH'. reflexivity.
Qed.

Lemma html_esc1_length (c : Z) : (1 <= List.length (html_esc1 c))%nat.
Proof.
  unfold html_esc1.
  destruct (c =? 38), (c =? 60), (c =? 62), (c =? 34), (c =? 39); simpl; lia.
Qed.

Lemma flat_map_html_esc1_length (s : str) :
  (List.length s <= List.length (flat_map html_esc1 s))%nat.
Proof.
  induction s as [|c s IH]; simpl; [lia|]. rewrite length_app.
  pose proof (html_esc1_length c). lia.
Qed.

Lemma html_esc1_safe (c x : Z) :
  In x (html_esc1 c) -> x <> 60 /\ x <> 62 /\ x <> 34 /\ x <> 39.
Proof.
  unfold html_esc1.
  destruct (Z.eqb_spec c 38); [simpl; intuition lia|].
  destruct (Z.eqb_spec c 60); [simpl; intuition lia|].
  destruct (Z.eqb_spec c 62); [simpl; intuition lia|].
  destruct (Z.eqb_spec c 34); [simpl; intuition lia|].
  destruct (Z.eqb_spec c 39); [simpl; intuition lia|].
  intros [<-|[]]. auto.
Qed.

(** [html.escape] (used for every heading text in the table of contents
    and for every title-page field) leaves no less-than, greater-than,
    double quote or single quote character in its output, and loses
    nothing: reading its five character references back gives the
    original text. *)
Theorem html_escape_roundtrip (s : str) :
  read_html_text (html_escape s) = s /\
  (forall x, In x (html_escape s) -> x <> 60 /\ x <> 62 /\ x <> 34 /\ x <> 39).
Proof.
  rewrite html_escape_chars. split.
  - apply read_escape_refs_esc, flat_map_html_esc1_length.
  - intros x Hx. apply in_flat_map in Hx as [c [_ Hc]]. exact (html_esc1_safe c x Hc).
Qed.

Lemma match_heading_at_digit (uni_word : Z -> bool) (s rest : str) (m : hmatch) :
  match_heading_at uni_word s = Some (m, rest) -> is_level_digit (m_digit m) = true.
Proof.
  destruct s as [|lt [|h [|d s]]]; simpl; try discriminate.
  destruct ((lt =? 60) && is_h h && is_level_digit d && boundary_after uni_word s) eqn:Hg;
    [|discriminate].
  destruct (split_at_gt s) as [attrs [after|]]; [|discriminate].
  destruct (find_close d after) as [[content rest']|]; [|discriminate].
  intros Hm. injection Hm as <- _. simpl.
  apply andb_prop in Hg as [Hg _]. apply andb_prop in Hg as [_ Hd]. exact Hd.
Qed.

Lemma heading_matches_from_digit (uni_word : Z -> bool) (s : str) (skip : nat) :
  Forall (fun m => is_level_digit (m_digit m) = true) (heading_matches_from uni_word s skip).
Proof.
  revert skip. induction s as [|c s IH]; intros skip; cbn [heading_matches_from]; [constructor|].
  destruct skip as [|k]; [|apply IH].
  destruct (match_heading_at uni_word (c :: s)) as [[m rest]|] eqn:Hm; [|apply IH].
  constructor; [exact (match_heading_at_digit _ _ _ _ Hm)|apply IH].
Qed.

(** Every record [extract_headers] returns has a non-empty text and the
    level 1 or 2: headings whose text is empty once tags are removed and
    whitespace stripped are skipped, and only [h1] and [h2] tags match. *)
Theorem extract_headers_records (lower : str -> str) (uni_word : Z -> bool)
    (refs : str -> str) (html : str) :
  Forall (fun r => h_text r <> [] /\ (h_level r = 1 \/ h_level r = 2))
    (extract_headers lower uni_word refs html).
Proof.
  apply Forall_forall. intros r Hr.
  assert (Hin : In (h_text r, h_level r)
                  (map (fun r => (h_text r, h_level r)) (extract_headers lower uni_word refs html)))
    by (apply in_map_iff; exists r; auto).
  unfold extract_headers in Hin. rewrite extract_loop_text_level in Hin.
  apply in_map_iff in Hin as [m [Heq Hm]]. injection Heq as Ht Hl.
  apply filter_In in Hm as [Hm Hne].
  pose proof (proj1 (Forall_forall _ _) (heading_matches_from_digit uni_word html O) m Hm) as Hd.
  split.
  - rewrite <- Ht. intros He. rewrite He in Hne. discriminate.
  - rewrite <- Hl. unfold is_level_digit in Hd. unfold digit_to_level.
    apply orb_true_iff in Hd as [Hd|Hd]; apply Z.eqb_eq in Hd; rewrite Hd; auto.
Qed.

(** ** Further properties: the converter *)

Lemma join_cons_nonempty (sep x : str) (parts : list str) :
  parts <> [] -> join sep (x :: parts) = x ++ sep ++ join sep parts.
Proof. destruct parts as [|y parts]; [congruence|reflexivity]. Qed.

Lemma split_on_spec (c : Z) (s : str) :
  split_on c s <> [] /\ join [c] (split_on c s) = s /\
  Forall (fun piece => ~ In c piece) (split_on c s).
Proof.
  induction s as [|x s [Hne [Hj Hf]]]; simpl; [split; [discriminate|split; auto]|].
  destruct (Z.eqb_spec x c) as [->|Hx].
  - split; [discriminate|]. split.
    + rewrite join_cons_nonempty by exact Hne. rewrite Hj. reflexivity.
    + constructor; [intros []|exact Hf].
  - destruct (split_on c s) as [|p ps]; [congruence|].
    split; [discriminate|]. split.
    + destruct ps as [|q ps]; simpl in Hj |- *; rewrite Hj; reflexivity.
    + inversion Hf as [|? ? Hp Hps]; subst. constructor; [|exact Hps].
      intros [Hc|Hc]; [congruence|contradiction].
Qed.

(** The keywords set on the PDF document: none when the keyword string
    is empty, otherwise its comma-separated pieces in order (one more
    than there are commas, none containing a comma), each stripped of
    surrounding whitespace. *)
Theorem doc_meta_keywords (p : pdf_meta) :
  (pm_keywords p = [] -> dm_keywords (doc_meta_of p) = None) /\
  (pm_keywords p <> [] ->
   exists pieces,
     dm_keywords (doc_meta_of p) = Some (map py_strip pieces) /\
     join [44] pieces = pm_keywords p /\
     Forall (fun piece => ~ In 44 piece) pieces /\
     List.length pieces = S (count_occ Z.eq_dec (pm_keywords p) 44)).
Proof.
  unfold doc_meta_of. simpl. split.
  - intros ->. reflexivity.
  - intros Hne. destruct (is_empty (pm_keywords p)) eqn:He.
    { destruct (pm_keywords p); [congruence|discriminate]. }
    exists (split_on 44 (pm_keywords p)).
    destruct (split_on_spec 44 (pm_keywords p)) as [_ [Hj Hf]].
    split; [reflexivity|]. split; [exact Hj|]. split; [exact Hf|].
    clear. induction (pm_keywords p) as [|x s IH]; simpl; [reflexivity|].
    destruct (split_on_spec 44 s) as [Hn _].
    destruct (Z.eqb_spec x 44) as [->|Hx].
    + simpl. rewrite IH. destruct (Z.eq_dec 44 44); [reflexivity|congruence].
    + destruct (split_on 44 s) as [|q qs]; [congruence|]. simpl in *.
      rewrite IH. destruct (Z.eq_dec x 44); [congruence|reflexivity].
Qed.

Lemma doc_meta_keywords_witness :
  (pm_keywords {| pm_title := zs "T"; pm_author := []; pm_subject := [];
                  pm_keywords := zs "a, b,c" |} = [] ->
   dm_keywords (doc_meta_of {| pm_title := zs "T"; pm_author := []; pm_subject := [];
                              pm_keywords := zs "a, b,c" |}) = None) /\
  (pm_keywords {| pm_title := zs "T"; pm_author := []; pm_subject := [];
                  pm_keywords := zs "a, b,c" |} <> [] /\
   exists pieces,
     dm_keywords (doc_meta_of {| pm_title := zs "T"; pm_author := []; pm_subject := [];
                                pm_keywords := zs "a, b,c" |}) = Some (map py_strip pieces) /\
     join [44] pieces = zs "a, b,c" /\
     Forall (fun piece => ~ In 44 piece) pieces /\
     List.length pieces = S (count_occ Z.eq_dec (zs "a, b,c") 44)).
Proof.
  pose proof (doc_meta_keywords {| pm_title := zs "T"; pm_author := []; pm_subject := [];
                                   pm_keywords := zs "a, b,c" |}) as [H1 H2].
  split; [exact H1|]. split; [discriminate|]. apply H2. discriminate.
Defined.

Section ConverterMore.
Context `{platform}.

Lemma convert_sources_app (fs : FS) (pre rest : list path) (bodies : list str) :
  convert_sources fs pre = Ok bodies ->
  convert_sources fs (pre ++ rest) = rbind (convert_sources fs rest) (fun r => Ok (bodies ++ r)).
Proof.
  revert bodies. induction pre as [|p pre IH]; intros bodies Hpre; simpl in *.
  - injection Hpre as <-. destruct (convert_sources fs rest); reflexivity.
  - destruct (read_source fs p) as [c|e]; simpl in *; [|discriminate].
    destruct (md_convert fs p c) as [b|e]; simpl in *; [|discriminate].
    destruct (convert_sources fs pre) as [bs|e] eqn:Hbs; simpl in *; [|discriminate].
    injection Hpre as <-. rewrite (IH bs eq_refl).
    destruct (convert_sources fs rest); reflexivity.
Qed.

(** When the markdown file cannot be read, [convert_file] raises an
    [InvalidMarkdownError] ("File not found: " and the path for a missing
    file, "Error reading ", the path and the error otherwise) and writes
    nothing. *)
Theorem convert_file_read_error (css : str) (input_path output_path : path)
    (toc_enabled : bool) (metadata : option metadata) (title_page_enabled : bool)
    (fs : FS) (e : exn) :
  read_text fs input_path = Raise e ->
  convert_file css input_path output_path toc_enabled metadata title_page_enabled fs
  = (fs, Raise (InvalidMarkdownError
                  match e with
                  | FileNotFoundError _ => zs "File not found: " ++ path_str input_path
                  | _ => zs "Error reading " ++ path_str input_path ++ zs ": " ++ exn_str e
                  end)).
Proof.
  intros Hr. unfold convert_file, read_source. rewrite Hr. destruct e; reflexivity.
Qed.

(** When every file before [p] can be read and converted but [p] cannot
    be read, [convert_merge] raises the [InvalidMarkdownError] of [p]
    (it is not wrapped in a [ConversionError]) and writes nothing. *)
Theorem convert_merge_read_error (css : str) (pre post : list path) (p output_path : path)
    (toc_enabled : bool) (metadata : option metadata) (title_page_enabled : bool)
    (fs : FS) (bodies : list str) (e : exn) :
  convert_sources fs pre = Ok bodies ->
  read_text fs p = Raise e ->
  convert_merge css (pre ++ p :: post) output_path toc_enabled metadata title_page_enabled fs
  = (fs, Raise (InvalidMarkdownError
                  match e with
                  | FileNotFoundError _ => zs "File not found: " ++ path_str p
                  | _ => zs "Error reading " ++ path_str p ++ zs ": " ++ exn_str e
                  end)).
Proof.
  intros Hpre Hr. unfold convert_merge.
  rewrite (convert_sources_app fs pre (p :: post) bodies Hpre).
  destruct (pre ++ p :: post) as [|first others] eqn:Hl; [destruct pre; discriminate|].
  simpl. unfold read_source. rewrite Hr. destruct e; reflexivity.
Qed.

(** [convert_file] and [convert_merge] raise nothing but
    [InvalidMarkdownError] and [ConversionError], the two exceptions
    [cli.main] catches in single-file mode; every other failure (of the
    markdown parser, the renderer or the writer) is wrapped in a
    [ConversionError]. *)
Theorem convert_error_kinds (css : str) (input_path output_path : path)
    (input_paths : list path) (toc_enabled : bool) (metadata : option metadata)
    (title_page_enabled : bool) (fs : FS) :
  (exists fs' r,
     convert_file css input_path output_path toc_enabled metadata title_page_enabled fs = (fs', r) /\
     (r = Ok tt \/ exists m, r = Raise (InvalidMarkdownError m) \/ r = Raise (ConversionError m))) /\
  (exists fs' r,
     convert_merge css input_paths output_path toc_enabled metadata title_page_enabled fs = (fs', r) /\
     (r = Ok tt \/ exists m, r = Raise (InvalidMarkdownError m) \/ r = Raise (ConversionError m))).
Proof.
  split; [apply convert_file_outcome|].
  unfold convert_merge. destruct input_paths as [|first others].
  - exists fs. eexists. split; [reflexivity|]. right. eauto.
  - apply reraise_invalid_unit.
Qed.

Lemma convert_each_outputs (css : str) (files : list path) (input_dir output_dir : path)
    (preserve_structure toc_enabled : bool) (metadata : option metadata)
    (title_page_enabled : bool) (fs fs' : FS) (results : list conversion_result) :
  convert_each css files input_dir output_dir preserve_structure toc_enabled metadata
    title_page_enabled fs = (fs', Ok results) ->
  Forall (fun r => get_output_path (r_input r) input_dir output_dir preserve_structure
                   = Ok (r_output r)) results.
Proof.
  revert fs results. induction files as [|f files IH]; intros fs results He; simpl in He.
  - injection He as _ <-. constructor.
  - destruct (get_output_path f input_dir output_dir preserve_structure) as [o|e] eqn:Ho;
      [|discriminate].
    destruct (convert_file css f o toc_enabled metadata title_page_enabled fs) as [fs1 r].
    destruct (result_of f o r) as [res1|e] eqn:Hres; [|discriminate].
    destruct (convert_each css files input_dir output_dir preserve_structure toc_enabled
                metadata title_page_enabled fs1) as [fs2 [rs|e]] eqn:Hrest; [|discriminate].
    injection He as -> <-. constructor; [|exact (IH fs1 rs Hrest)].
    unfold result_of in Hres.
    destruct r as [u|[m|m|m|m|m]]; try discriminate; injection Hres as <-; exact Ho.
Qed.

(** Every record [convert_directory] returns names as output the path
    [get_output_path] gives for its input: mirrored under the output
    directory when the structure is preserved, the bare output directory
    plus [stem.pdf] otherwise (so two files with the same stem in
    different subdirectories get the same output path). *)
Theorem convert_directory_outputs (css : str) (input_dir output_dir : path)
    (preserve_structure toc_enabled : bool) (metadata : option metadata)
    (title_page_enabled : bool) (fs fs' : FS) (results : list conversion_result) :
  convert_directory css input_dir output_dir preserve_structure toc_enabled metadata
    title_page_enabled fs = (fs', Ok results) ->
  Forall (fun r => get_output_path (r_input r) input_dir output_dir preserve_structure
                   = Ok (r_output r)) results.
Proof. apply convert_each_outputs. Qed.

Lemma resolve_image_path_exists (fs : FS) (source_file : path) (v : str) (p : path) :
  resolve_image_path fs source_file v = Ok p -> path_exists fs p = true.
Proof.
  unfold resolve_image_path.
  destruct (path_exists fs _) eqn:He; intros Hr; [injection Hr as <-; exact He|discriminate].
Qed.

(** When [ImagePathProcessor.run] succeeds, it keeps the images in
    order, leaves an image without [src] or with an empty one as it is,
    and gives every other image the path of an existing file: the
    reference resolved against the source file's directory (or taken as
    it is when absolute). *)
Theorem process_images_ok (fs : FS) (source_file : path) (srcs out : list (option str)) :
  process_images fs source_file srcs = Ok out ->
  Forall2 (fun src o =>
             match src with
             | Some ((_ :: _) as v) =>
                 exists p, resolve_image_path fs source_file v = Ok p /\
                           path_exists fs p = true /\ o = Some (path_str p)
             | _ => o = src
             end) srcs out.
Proof.
  revert out. induction srcs as [|src srcs IH]; intros out Hp; simpl in Hp.
  - injection Hp as <-. constructor.
  - destruct src as [[|c v]|]; simpl in Hp.
    + destruct (process_images fs source_file srcs) as [r|e]; simpl in Hp; [|discriminate].
      injection Hp as <-. constructor; [reflexivity|apply IH; reflexivity].
    + destruct (resolve_image_path fs source_file (c :: v)) as [p|e] eqn:Hr; simpl in Hp;
        [|discriminate].
      destruct (process_images fs source_file srcs) as [r|e]; simpl in Hp; [|discriminate].
      injection Hp as <-. constructor; [|apply IH; reflexivity].
      exists p. split; [exact Hr|]. split; [exact (resolve_image_path_exists _ _ _ _ Hr)|].
      reflexivity.
    + destruct (process_images fs source_file srcs) as [r|e]; simpl in Hp; [|discriminate].
      injection Hp as <-. constructor; [reflexivity|apply IH; reflexivity].
Qed.

Lemma common_parts_prefix (a b : list str) : exists rest, a = common_parts a b ++ rest.
Proof.
  revert b. induction a as [|x a IH]; intros [|y b]; simpl; try (exists []; reflexivity).
  - exists (x :: a). reflexivity.
  - destruct (str_eqb x y); [|exists (x :: a); reflexivity].
    destruct (IH b) as [rest Hr]. exists rest. simpl. rewrite <- Hr. reflexivity.
Qed.

(** The base URL [convert_merge] renders with is the directory of the
    first file or one of its ancestors: every round of the loop either
    keeps it or replaces it by the common leading parts of it and the next
    file's directory.  Assumes what [pathlib] gives: a path built from
    leading parts of a path's [parts] has exactly those parts. *)
Theorem convert_merge_base_dir
    (parts_of_prefix : forall q l rest, parts q = l ++ rest -> parts (path_of_parts l) = l)
    (first : path) (others : list path) :
  exists rest, parts (parent first) = parts (fold_left merge_base_step others (parent first)) ++ rest.
Proof.
  assert (Hgen : forall base, (exists rest, parts (parent first) = parts base ++ rest) ->
            exists rest, parts (parent first) = parts (fold_left merge_base_step others base) ++ rest).
  { induction others as [|p others IH]; intros base Hb; simpl; [exact Hb|].
    apply IH. unfold merge_base_step.
    destruct (relative_to base (parent p)); [exact Hb|].
    destruct (relative_to (parent p) base); [exact Hb|].
    destruct (common_parts (parts base) (parts (parent p))) as [|c cs] eqn:Hc; [exact Hb|].
    destruct Hb as [r1 Hr1]. destruct (common_parts_prefix (parts base) (parts (parent p))) as [r2 Hr2].
    rewrite Hc in Hr2. rewrite (parts_of_prefix base _ r2 Hr2). exists (r2 ++ r1).
    rewrite Hr1, Hr2, app_assoc. reflexivity. }
  apply Hgen. exists []. rewrite app_nil_r. reflexivity.
Qed.

End ConverterMore.

Lemma convert_file_read_error_witness :
  @convert_file mem_platform [] [zs "d"; zs "gone.md"] [zs "out"; zs "gone.pdf"] false None false []
  = ([], Raise (InvalidMarkdownError (zs "File not found: d/gone.md"))).
Proof.
  apply (@convert_file_read_error mem_platform [] [zs "d"; zs "gone.md"] [zs "out"; zs "gone.pdf"]
           false None false [] (FileNotFoundError (zs "d/gone.md"))).
  reflexivity.
Defined.

Lemma convert_merge_read_error_witness :
  @convert_merge mem_platform [] [[zs "d"; zs "a.md"]; [zs "d"; zs "gone.md"]; [zs "d"; zs "b.md"]]
    [zs "out"; zs "all.pdf"] false None false
    [([zs "d"; zs "a.md"], zs "A"); ([zs "d"; zs "b.md"], zs "B")]
  = ([([zs "d"; zs "a.md"], zs "A"); ([zs "d"; zs "b.md"], zs "B")],
     Raise (InvalidMarkdownError (zs "File not found: d/gone.md"))).
Proof.
  apply (@convert_merge_read_error mem_platform [] [[zs "d"; zs "a.md"]] [[zs "d"; zs "b.md"]]
           [zs "d"; zs "gone.md"] [zs "out"; zs "all.pdf"] false None false
           [([zs "d"; zs "a.md"], zs "A"); ([zs "d"; zs "b.md"], zs "B")] [zs "A"]
           (FileNotFoundError (zs "d/gone.md"))); vm_compute; reflexivity.
Defined.

Lemma convert_directory_outputs_witness :
  exists fs' results,
    @convert_directory mem_platform [] [zs "d"] [zs "out"] false false None false
      [([zs "d"; zs "a"; zs "x.md"], zs "A"); ([zs "d"; zs "b"; zs "x.md"], zs "B")]
    = (fs', Ok results) /\
    Forall (fun r => @get_output_path mem_platform (r_input r) [zs "d"] [zs "out"] false
                     = Ok (r_output r)) results /\
    map r_output results = [[zs "out"; zs "x.md.pdf"]; [zs "out"; zs "x.md.pdf"]].
Proof.
  eexists. eexists. split; [vm_compute; reflexivity|]. split.
  - eapply (@convert_directory_outputs mem_platform [] [zs "d"] [zs "out"] false false None false
              [([zs "d"; zs "a"; zs "x.md"], zs "A"); ([zs "d"; zs "b"; zs "x.md"], zs "B")]).
    reflexivity.
  - vm_compute. reflexivity.
Defined.

Lemma process_images_ok_witness :
  exists out,
    @process_images mem_platform [([zs "d"; zs "img.png"], [])] [zs "d"; zs "a.md"]
      [None; Some []; Some (zs "img.png")] = Ok out /\
    Forall2 (fun src o =>
               match src with
               | Some ((_ :: _) as v) =>
                   exists p, @resolve_image_path mem_platform [([zs "d"; zs "img.png"], [])]
                               [zs "d"; zs "a.md"] v = Ok p /\
                             @path_exists mem_platform [([zs "d"; zs "img.png"], [])] p = true /\
                             o = Some (@path_str mem_platform p)
               | _ => o = src
               end) [None; Some []; Some (zs "img.png")] out.
Proof.
  eexists. split; [vm_compute; reflexivity|].
  apply (@process_images_ok mem_platform). vm_compute. reflexivity.
Defined.

Lemma convert_merge_base_dir_witness :
  exists rest,
    [zs "docs"; zs "guide"] =
    fold_left (@merge_base_step mem_platform)
      [[zs "docs"; zs "intro.md"]; [zs "docs"; zs "api"; zs "ref.md"]] [zs "docs"; zs "guide"]
    ++ rest.
Proof.
  apply (@convert_merge_base_dir mem_platform (fun _ _ _ _ => eq_refl) [zs "docs"; zs "guide"; zs "a.md"]
           [[zs "docs"; zs "intro.md"]; [zs "docs"; zs "api"; zs "ref.md"]]).
Defined.
